(** * TENT on rotated MNIST: the evaluation script [mnistr.py]

    A shallow embedding of the orchestration script: the rotated test-set
    loader [load_cifar_r], the checkpoint key rewrite, the adaptation
    selector, the optimizer factory [setup_optimizer] and the angle sweep of
    [evaluate].  Calls into torch, torchvision, robustbench and the companion
    modules [tent], [norm], [lenet] and [conf] are parameters of the model. *)

From Stdlib Require Import ZArith Floats Ascii String.
From stdpp Require Import base option list.

Set Warnings "-inexact-float".

Local Open Scope Z_scope.

(** ** Python values and exceptions *)

Module Py.

(** The exceptions the script can meet.  [OtherError] stands for an error
    whose class is not fixed here, as it differs between versions of the
    framework. *)
Inductive exn : Type :=
| RuntimeError (msg : string)
| IndexError
| KeyError (key : string)
| UnboundLocalError (name : string)
| AttributeError (name : string)
| NotImplementedError
| OtherError (msg : string).

(** A call either returns or raises. *)
Inductive result (A : Type) : Type :=
| Ok (a : A)
| Raise (e : exn).
Arguments Ok {A} a.
Arguments Raise {A} e.

(** [l[:n]] on a sequence: a negative bound counts from the end. *)
Definition slice_to {A : Type} (n : Z) (l : list A) : list A :=
  if 0 <=? n then take (Z.to_nat n) l
  else take (length l - Z.to_nat (- n))%nat l.

(** [range(start, stop, step)] for a positive step. *)
Definition range (start stop step : Z) : list Z :=
  let count := Z.to_nat ((stop - start + step - 1) / step) in
  (fun i : nat => start + step * Z.of_nat i) <$> seq 0 count.

(** [s[k:]] on a string. *)
Fixpoint str_drop (k : nat) (s : string) : string :=
  match k, s with
  | O, _ => s
  | S _, EmptyString => EmptyString
  | S k', String _ s' => str_drop k' s'
  end.

(** [old in s]: some suffix of [s] starts with [old]. *)
Fixpoint str_contains (old s : string) : bool :=
  String.prefix old s
  || match s with
     | EmptyString => false
     | String _ s' => str_contains old s'
     end.

(** The scan of [str.replace] for a non-empty [old]: [skip] counts the
    characters of a matched occurrence that are still to be passed over. *)
Fixpoint replace_scan (old new : string) (skip : nat) (s : string) : string :=
  match s with
  | EmptyString => EmptyString
  | String c s' =>
      match skip with
      | S k => replace_scan old new k s'
      | O =>
          if String.prefix old s
          then String.append new (replace_scan old new (String.length old - 1) s')
          else String c (replace_scan old new 0 s')
      end
  end.

(** [s.replace(old, new)]: every non-overlapping occurrence, found from the
    left, is replaced; an empty [old] matches before every character and at
    the end. *)
Definition str_replace (old new s : string) : string :=
  match old with
  | EmptyString =>
      String.append new
        ((fix between (t : string) : string :=
            match t with
            | EmptyString => EmptyString
            | String c t' => String c (String.append new (between t'))
            end) s)
  | String _ _ => replace_scan old new 0 s
  end.

End Py.

Import Py.

(** ** torchvision transforms and the MNIST test split *)

(** The image operations of torchvision; [img] stands for both the PIL image
    of the dataset and the tensors made from it. *)
Class ImageOps : Type := {
  img : Type;
  to_tensor : img -> img;
  normalize : list float -> list float -> img -> img;
  rotate : img -> Z -> img
}.

(** The fixed normalization constants. *)
Definition MNIST_MEAN : float := 0.1307%float.
Definition MNIST_STD : float := 0.3081%float.

(** The examples of one batch are fetched in groups of this size. *)
Definition batch_size : nat := 100.

Section Loader.
Context {ops : ImageOps}.

(** [class RotationTransform]: the constructor stores the angle. *)
Record RotationTransform : Type := { angle : Z }.

Definition RotationTransform_call (self : RotationTransform) (x : img) : img :=
  rotate x (angle self).

(** The members a [transforms.Compose] pipeline is built from here. *)
Inductive transform : Type :=
| ToTensor
| Normalize (mean std : list float)
| Rotation (r : RotationTransform).

Definition transform_call (t : transform) (x : img) : img :=
  match t with
  | ToTensor => to_tensor x
  | Normalize mean std => normalize mean std x
  | Rotation r => RotationTransform_call r x
  end.

(** [transforms.Compose(ts)(x)]: the members are applied first to last. *)
Definition Compose (ts : list transform) (x : img) : img :=
  fold_left (fun acc t => transform_call t acc) ts x.

(** [datasets.MNIST(..., train=False, transform=...)]: the stored split
    with the transform applied on access.  The stored test split is not
    empty; what the constructor does with an empty store is not modelled. *)
Record MNIST : Type := {
  data : list (img * Z);
  transform_of : img -> img
}.

Definition MNIST_len (d : MNIST) : nat := length (data d).

Definition MNIST_getitem (d : MNIST) (i : nat) : option (img * Z) :=
  (fun e => (transform_of d (fst e), snd e)) <$> data d !! i.

(** The order in which a [DataLoader] visits the indices: sequential, or
    the permutation [gen] drawn from the random generator when shuffling. *)
Definition sampler (shuffle : bool) (gen : list nat) (n : nat) : list nat :=
  if shuffle then gen else seq 0 n.

(** Consecutive groups of [bs] items, the last one possibly shorter. *)
Definition batched {A : Type} (bs : nat) (l : list A) : list (list A) :=
  (fun k : nat => take bs (drop (k * bs) l)) <$> seq 0 (Nat.div (length l + bs - 1) bs).

(** The default collate function: a batch of examples becomes a pair of
    stacked inputs and stacked labels. *)
Definition collate (b : list (img * Z)) : list img * list Z :=
  (fst <$> b, snd <$> b).

(** [DataLoader(dataset, batch_size, shuffle, num_workers=0)], iterated. *)
Definition DataLoader (d : MNIST) (bs : nat) (shuffle : bool) (gen : list nat)
  : result (list (list img * list Z)) :=
  match mapM (MNIST_getitem d) (sampler shuffle gen (MNIST_len d)) with
  | Some items => Ok (collate <$> batched bs items)
  | None => Raise IndexError
  end.

(** [torch.cat] along the first dimension; it refuses an empty list. *)
Definition torch_cat {A : Type} (ts : list (list A)) : result (list A) :=
  match ts with
  | [] => Raise (OtherError "torch.cat of an empty list")
  | _ => Ok (concat ts)
  end.

(** The exit test of the accumulation loop. *)
Definition cap_reached (n_examples : option Z) (i : nat) : bool :=
  match n_examples with
  | Some n => n <=? Z.of_nat batch_size * Z.of_nat i
  | None => false
  end.

(** The loop over [enumerate(test_loader)]. *)
Fixpoint accumulate (n_examples : option Z) (i : nat)
    (test_loader : list (list img * list Z))
    (x_test : list (list img)) (y_test : list (list Z))
  : list (list img) * list (list Z) :=
  match test_loader with
  | [] => (x_test, y_test)
  | (x, y) :: rest =>
      let x_test := x_test ++ [x] in
      let y_test := y_test ++ [y] in
      if cap_reached n_examples i then (x_test, y_test)
      else accumulate n_examples (S i) rest x_test y_test
  end.

(** The pipeline built at the head of [load_cifar_r]. *)
Definition loader_transform (rotation : Z) : list transform :=
  [ ToTensor; Normalize [MNIST_MEAN] [MNIST_STD]; Rotation {| angle := rotation |} ].

(** [load_cifar_r(rotation, n_examples)] over the stored test split
    [split]; [gen] is the permutation a shuffling loader would draw. *)
Definition load_cifar_r (split : list (img * Z)) (gen : list nat)
    (rotation : Z) (n_examples : option Z) : result (list img * list Z) :=
  let dataset := {| data := split; transform_of := Compose (loader_transform rotation) |} in
  match DataLoader dataset batch_size false gen with
  | Raise e => Raise e
  | Ok test_loader =>
      let '(x_test, y_test) := accumulate n_examples 0 test_loader [] [] in
      match torch_cat x_test with
      | Raise e => Raise e
      | Ok x_test_tensor =>
          match torch_cat y_test with
          | Raise e => Raise e
          | Ok y_test_tensor =>
              match n_examples with
              | Some n => Ok (slice_to n x_test_tensor, slice_to n y_test_tensor)
              | None => Ok (x_test_tensor, y_test_tensor)
              end
          end
      end
  end.

End Loader.

(** Quantities the statements about the loader are phrased with. *)
Section LoaderQuantities.
Context {ops : ImageOps}.

(** The examples as the dataset hands them out, in stored order. *)
Definition examples (rotation : Z) (split : list (img * Z)) : list (img * Z) :=
  (fun e => (Compose (loader_transform rotation) (fst e), snd e)) <$> split.

(** How many batches the loop appends when it starts at index [i] with
    [len] batches ahead: all of them, or those up to and including the
    first whose index times the batch size reaches the cap. *)
Definition batches_taken (n_examples : option Z) (i len : nat) : nat :=
  match n_examples with
  | None => len
  | Some n => Nat.min len (S (Z.to_nat ((n + 99) / 100) - i))
  end.

(** The final cut. *)
Definition cut {A : Type} (n_examples : option Z) (l : list A) : list A :=
  match n_examples with
  | Some n => slice_to n l
  | None => l
  end.

(** What the loop has gathered when it ends. *)
Definition gathered (rotation : Z) (n_examples : option Z) (split : list (img * Z))
  : list (img * Z) :=
  take (batches_taken n_examples 0 (length (batched batch_size (examples rotation split)))
        * batch_size)
       (examples rotation split).

(** How many items the final cut keeps of [len]. *)
Definition cut_length (n_examples : option Z) (len : nat) : nat :=
  match n_examples with
  | None => len
  | Some n => if (0 <=? n)%Z then Z.to_nat n else len - Z.to_nat (- n)
  end.

End LoaderQuantities.

(** Two readings of the image operations, used to run the loader.  In the
    first an image is a number and every operation leaves a visible mark. *)
Definition ZOps : ImageOps := {|
  img := Z;
  to_tensor := fun x => x + 1;
  normalize := fun _ _ x => 2 * x;
  rotate := fun x a => x + 1000 * a
|}.

(** In the second an image is the term that records how it was computed. *)
Inductive sym : Type :=
| SRaw (id : nat)
| SToTensor (x : sym)
| SNormalize (mean std : list float) (x : sym)
| SRotate (x : sym) (a : Z).

Definition SymOps : ImageOps := {|
  img := sym;
  to_tensor := SToTensor;
  normalize := SNormalize;
  rotate := SRotate
|}.

(** ** Python dictionaries, in insertion order *)

Module PyDict.

Definition t (V : Type) : Type := list (string * V).

Definition keys {V : Type} (d : t V) : list string := fst <$> d.

(** [d[key]] *)
Fixpoint getitem {V : Type} (key : string) (d : t V) : result V :=
  match d with
  | [] => Raise (KeyError key)
  | (k, v) :: d' => if String.eqb k key then Ok v else getitem key d'
  end.

(** [d.pop(key)]: the value and the dictionary without the entry. *)
Fixpoint pop {V : Type} (key : string) (d : t V) : result (V * t V) :=
  match d with
  | [] => Raise (KeyError key)
  | (k, v) :: d' =>
      if String.eqb k key then Ok (v, d')
      else match pop key d' with
           | Ok (w, d'') => Ok (w, (k, v) :: d'')
           | Raise e => Raise e
           end
  end.

(** [d[key] = v]: an existing entry keeps its place, a new one goes last. *)
Fixpoint setitem {V : Type} (key : string) (v : V) (d : t V) : t V :=
  match d with
  | [] => [(key, v)]
  | (k, w) :: d' =>
      if String.eqb k key then (k, v) :: d' else (k, w) :: setitem key v d'
  end.

End PyDict.

(** ** The checkpoint key rewrite *)

(** [key.replace("module.", "")] *)
Definition new_key (key : string) : string := str_replace "module." "" key.

(** The body of the loop over [list(state_dict.keys())]. *)
Fixpoint rewrite_keys {V : Type} (ks : list string) (state_dict : PyDict.t V)
  : result (PyDict.t V) :=
  match ks with
  | [] => Ok state_dict
  | key :: ks' =>
      match PyDict.pop key state_dict with
      | Raise e => Raise e
      | Ok (v, state_dict') =>
          rewrite_keys ks' (PyDict.setitem (new_key key) v state_dict')
      end
  end.

(** The whole pass: the key list is taken before the loop starts. *)
Definition strip_module_prefix {V : Type} (state_dict : PyDict.t V)
  : result (PyDict.t V) :=
  rewrite_keys (PyDict.keys state_dict) state_dict.

(** ** Configuration *)

Record cfg_MODEL : Type := {
  ADAPTATION : string;
  EVOLVE : bool;
  EPISODIC : bool
}.

Record cfg_OPTIM : Type := {
  METHOD : string;
  LR : float;
  BETA : float;
  WD : float;
  MOMENTUM : float;
  DAMPENING : float;
  NESTEROV : bool;
  STEPS : Z
}.

Record cfg_TEST : Type := { BATCH_SIZE : Z }.

Record Cfg : Type := {
  MODEL : cfg_MODEL;
  OPTIM : cfg_OPTIM;
  TEST : cfg_TEST
}.

(** ** The framework and the companion modules *)

(** What the script calls but does not define: torch, robustbench and the
    modules [lenet], [norm] and [tent].  A [module] is the state of a model
    object; [reset] gives the state the call leaves behind and tells whether
    it returned or raised.  The calls [model.eval()], [norm.collect_stats],
    [tent.configure_model] and [tent.collect_params] are taken to return;
    nothing below is stated about a run in which one of them raises. *)
Class Framework {ops : ImageOps} : Type := {
  module : Type;
  weights : Type;
  params : Type;
  optimizer : Type;
  LeNet5 : module;
  torch_load : string -> result (PyDict.t (PyDict.t weights));
  load_state_dict : module -> PyDict.t weights -> result module;
  module_eval : module -> module;
  norm_Norm : module -> result module;
  norm_collect_stats : module -> unit;
  tent_configure_model : module -> module;
  tent_collect_params : module -> params;
  tent_Tent : module -> optimizer -> Z -> bool -> result module;
  optim_Adam : params -> float -> float * float -> float -> result optimizer;
  optim_SGD : params -> float -> float -> float -> float -> bool -> result optimizer;
  reset : module -> module * result unit;
  accuracy : module -> list img -> list Z -> Z -> result (float * module)
}.

(** ** The evaluation driver *)

Section Driver.
Context {ops : ImageOps} {fw : Framework}.

Inductive level : Type := INFO | WARNING.

(** A log record: a fixed text, a [%s] format whose argument is the
    printed form of a framework object, or the per-angle error line. *)
Inductive message : Type :=
| Text (s : string)
| Fmt (s : string)
| ErrorPct (angle : Z) (err : float).

(** What a run does, in order. *)
Inductive event : Type :=
| EPrint (s : string)
| ELog (lvl : level) (m : message)
| EReset (m : module) (after : module) (r : result unit)
| ECaught (e : exn)
| ELoad (rotation : Z) (n_examples : option Z)
| EAccuracy (m : module) (x : list img) (y : list Z) (bs : Z)
            (r : result (float * module)).

(** The state a run threads: what happened so far and the binding of the
    local variable [model] ([None] while it is unbound). *)
Record state : Type := {
  trace : list event;
  model : option module
}.

Definition M (A : Type) : Type := state -> result A * state.

Definition ret {A : Type} (a : A) : M A := fun s => (Ok a, s).

Definition bind {A B : Type} (c : M A) (k : A -> M B) : M B :=
  fun s =>
    match c s with
    | (Ok a, s') => k a s'
    | (Raise e, s') => (Raise e, s')
    end.

Definition raise {A : Type} (e : exn) : M A := fun s => (Raise e, s).

Definition lift {A : Type} (r : result A) : M A := fun s => (r, s).

Definition emit (ev : event) : M unit :=
  fun s => (Ok tt, {| trace := trace s ++ [ev]; model := model s |}).

(** [try: body / except: handler] with a bare [except]. *)
Definition try_except {A : Type} (body handler : M A) : M A :=
  fun s =>
    match body s with
    | (Ok a, s') => (Ok a, s')
    | (Raise e, s') =>
        handler {| trace := trace s' ++ [ECaught e]; model := model s' |}
    end.

(** Reading and assigning the local variable [model]. *)
Definition get_model : M module :=
  fun s =>
    match model s with
    | Some m => (Ok m, s)
    | None => (Raise (UnboundLocalError "model"), s)
    end.

Definition set_model (m : module) : M unit :=
  fun s => (Ok tt, {| trace := trace s; model := Some m |}).

#[local] Instance M_ret : MRet M := @ret.
#[local] Instance M_bind : MBind M := fun A B k c => bind c k.

Definition logger_info (m : message) : M unit := emit (ELog INFO m).
Definition logger_warning (m : message) : M unit := emit (ELog WARNING m).

(** [setup_optimizer(params)] *)
Definition setup_optimizer (cfg : Cfg) (ps : params) : result optimizer :=
  if String.eqb (METHOD (OPTIM cfg)) "Adam" then
    optim_Adam ps (LR (OPTIM cfg)) (BETA (OPTIM cfg), 0.999%float) (WD (OPTIM cfg))
  else if String.eqb (METHOD (OPTIM cfg)) "SGD" then
    optim_SGD ps (LR (OPTIM cfg)) (MOMENTUM (OPTIM cfg)) (DAMPENING (OPTIM cfg))
      (WD (OPTIM cfg)) (NESTEROV (OPTIM cfg))
  else Raise NotImplementedError.

(** [setup_source(model)] *)
Definition setup_source (m : module) : M module :=
  let m := module_eval m in
  logger_info (Fmt "model for evaluation: %s");;
  ret m.

(** [setup_norm(model)] *)
Definition setup_norm (m : module) : M module :=
  norm_model ← lift (norm_Norm m);
  logger_info (Fmt "model for adaptation: %s");;
  let _ := norm_collect_stats m in
  logger_info (Fmt "stats for adaptation: %s");;
  ret norm_model.

(** [setup_tent(model)] *)
Definition setup_tent (cfg : Cfg) (m : module) : M module :=
  let m := tent_configure_model m in
  let ps := tent_collect_params m in
  opt ← lift (setup_optimizer cfg ps);
  tent_model ← lift (tent_Tent m opt (STEPS (OPTIM cfg)) (EPISODIC (MODEL cfg)));
  logger_info (Fmt "model for adaptation: %s");;
  logger_info (Fmt "params for adaptation: %s");;
  logger_info (Fmt "optimizer for adaptation: %s");;
  ret tent_model.

(** The head of [evaluate]: the base model with the checkpoint loaded. *)
Definition bootstrap : M module :=
  let base_model := LeNet5 in
  emit (EPrint "==> Loading from checkpoint..");;
  checkpoint ← lift (torch_load "./lenet5-mnist.pth");
  state_dict ← lift (PyDict.getitem "net" checkpoint);
  state_dict ← lift (strip_module_prefix state_dict);
  lift (load_state_dict base_model state_dict).

(** The three independent tests on [cfg.MODEL.ADAPTATION]. *)
Definition select (cfg : Cfg) (base_model : module) : M unit :=
  (if String.eqb (ADAPTATION (MODEL cfg)) "source" then
     logger_info (Text "test-time adaptation: NONE");;
     m ← setup_source base_model;
     set_model m
   else ret tt);;
  (if String.eqb (ADAPTATION (MODEL cfg)) "norm" then
     logger_info (Text "test-time adaptation: NORM");;
     m ← setup_norm base_model;
     set_model m
   else ret tt);;
  (if String.eqb (ADAPTATION (MODEL cfg)) "tent" then
     logger_info (Text "test-time adaptation: TENT");;
     m ← setup_tent cfg base_model;
     set_model m
   else ret tt).

(** [model.reset()]: the object is looked up, then called. *)
Definition call_reset : M unit :=
  m ← get_model;
  let '(m', r) := reset m in
  set_model m';;
  emit (EReset m m' r);;
  lift r.

(** [accuracy(model, x_test, y_test, cfg.TEST.BATCH_SIZE)] *)
Definition call_accuracy (x : list img) (y : list Z) (bs : Z) : M float :=
  m ← get_model;
  let r := accuracy m x y bs in
  emit (EAccuracy m x y bs r);;
  match r with
  | Ok (acc, m') => set_model m';; ret acc
  | Raise e => raise e
  end.

(** One turn of the loop over the angles.  The moves of the two tensors to
    the device ([.cuda()]) are taken to return their argument. *)
Definition sweep_step (cfg : Cfg) (split : list (img * Z)) (gen : list nat)
    (angle : Z) : M unit :=
  (if negb (EVOLVE (MODEL cfg)) then
     try_except
       (call_reset;; logger_info (Text "resetting model"))
       (logger_warning (Text "not resetting model"))
   else ret tt);;
  emit (ELoad angle None);;
  xy ← lift (load_cifar_r split gen angle None);
  let '(x_test, y_test) := xy in
  acc ← call_accuracy x_test y_test (BATCH_SIZE (TEST cfg));
  let err := (1 - acc)%float in
  logger_info (ErrorPct angle err).

Fixpoint sweep (cfg : Cfg) (split : list (img * Z)) (gen : list nat)
    (angles : list Z) : M unit :=
  match angles with
  | [] => ret tt
  | angle :: rest => sweep_step cfg split gen angle;; sweep cfg split gen rest
  end.

(** [evaluate(description)] *)
Definition evaluate (cfg : Cfg) (split : list (img * Z)) (gen : list nat)
  : M unit :=
  base_model ← bootstrap;
  select cfg base_model;;
  sweep cfg split gen (range 0 181 10).

Definition initial : state := {| trace := []; model := None |}.

End Driver.

(** ** Reading a run *)

Section Runs.
Context {ops : ImageOps} {fw : Framework}.

(** The accuracy utility returns on every call. *)
Definition accuracy_returns : Prop :=
  forall m x y bs, exists acc m', accuracy m x y bs = Ok (acc, m').

(** One completed turn of the sweep: the angle, the model state on entry,
    the outcome of the reset call when one was made, the state the
    accuracy was measured on, the accuracy, and the state left behind. *)
Record turn : Type := {
  t_angle : Z;
  t_before : module;
  t_reset : option (module * result unit);
  t_used : module;
  t_acc : float;
  t_after : module
}.

(** What a reset attempt leaves in the trace. *)
Definition reset_events (before : module) (o : option (module * result unit))
  : list event :=
  match o with
  | None => []
  | Some (after, Ok _) =>
      [EReset before after (Ok tt); ELog INFO (Text "resetting model")]
  | Some (after, Raise e) =>
      [EReset before after (Raise e); ECaught e;
       ELog WARNING (Text "not resetting model")]
  end.

(** What the evaluation of one angle leaves in the trace. *)
Definition evaluation_events (cfg : Cfg) (split : list (img * Z)) (t : turn)
  : list event :=
  [ELoad (t_angle t) None;
   EAccuracy (t_used t)
     (fst <$> examples (t_angle t) split) (snd <$> examples (t_angle t) split)
     (BATCH_SIZE (TEST cfg)) (Ok (t_acc t, t_after t));
   ELog INFO (ErrorPct (t_angle t) (1 - t_acc t)%float)].

Definition turn_events (cfg : Cfg) (split : list (img * Z)) (t : turn)
  : list event :=
  reset_events (t_before t) (t_reset t) ++ evaluation_events cfg split t.

(** A turn agrees with the framework and the configuration. *)
Definition turn_ok (cfg : Cfg) (split : list (img * Z)) (t : turn) : Prop :=
  t_reset t = (if EVOLVE (MODEL cfg) then None else Some (reset (t_before t)))
  /\ t_used t = (if EVOLVE (MODEL cfg) then t_before t else fst (reset (t_before t)))
  /\ accuracy (t_used t)
       (fst <$> examples (t_angle t) split) (snd <$> examples (t_angle t) split)
       (BATCH_SIZE (TEST cfg))
     = Ok (t_acc t, t_after t).

(** Each turn starts in the state the previous one left. *)
Fixpoint chained (m : module) (ts : list turn) : Prop :=
  match ts with
  | [] => True
  | t :: ts' => t_before t = m /\ chained (t_after t) ts'
  end.

Fixpoint last_state (m : module) (ts : list turn) : module :=
  match ts with
  | [] => m
  | t :: ts' => last_state (t_after t) ts'
  end.

(** Views of a trace. *)
Definition is_evaluation_event (ev : event) : bool :=
  match ev with
  | ELoad _ _ | EAccuracy _ _ _ _ _ | ELog _ (ErrorPct _ _) => true
  | _ => false
  end.

Definition is_reset_or_accuracy (ev : event) : bool :=
  match ev with
  | EReset _ _ _ | EAccuracy _ _ _ _ _ => true
  | _ => false
  end.

Definition is_reset (ev : event) : bool :=
  match ev with
  | EReset _ _ _ => true
  | _ => false
  end.

Definition is_loop_event (ev : event) : bool :=
  match ev with
  | EPrint _ | ELog _ (Text "test-time adaptation: NONE")
  | ELog _ (Text "test-time adaptation: NORM")
  | ELog _ (Text "test-time adaptation: TENT") | ELog _ (Fmt _) => false
  | _ => true
  end.

Definition view (keep : event -> bool) (tr : list event) : list event :=
  List.filter keep tr.

End Runs.

(** Two more readings of a trace. *)
Section RunProjections.
Context {ops : ImageOps} {fw : Framework}.

(** The calls of [load_cifar_r], with their arguments. *)
Definition loaded (tr : list event) : list (Z * option Z) :=
  omap (fun ev => match ev with ELoad a n => Some (a, n) | _ => None end) tr.

(** The angles of the error lines logged. *)
Definition logged_angles (tr : list event) : list Z :=
  omap (fun ev => match ev with ELog _ (ErrorPct a _) => Some a | _ => None end) tr.

(** Every reset call that raised is followed at once by the catch, the
    warning and the load of an angle. *)
Fixpoint failed_resets_handled (tr : list event) : Prop :=
  match tr with
  | [] => True
  | EReset _ _ (Raise e) :: rest =>
      (exists a tr',
          rest = ECaught e :: ELog WARNING (Text "not resetting model")
                   :: ELoad a None :: tr')
      /\ failed_resets_handled rest
  | _ :: rest => failed_resets_handled rest
  end.

End RunProjections.

(** ** A small framework to run the driver on *)

(** Optimizers as the record of their constructor arguments. *)
Inductive toy_optimizer : Type :=
| ToyAdam (lr : float) (betas : float * float) (weight_decay : float)
| ToySGD (lr momentum dampening weight_decay : float) (nesterov : bool).

(** A model object is the count of forward passes it has adapted on; a reset
    puts the count back to zero, or raises when [can_reset] is off. *)
Definition ToyFramework (can_reset : bool) : @Framework ZOps := {|
  module := nat;
  weights := Z;
  params := unit;
  optimizer := toy_optimizer;
  LeNet5 := 0%nat;
  torch_load := fun _ =>
    Ok [("net"%string, [("module.conv1.weight"%string, 1); ("module.fc.bias"%string, 2)])];
  load_state_dict := fun m _ => Ok m;
  module_eval := fun m => m;
  norm_Norm := fun m => Ok m;
  norm_collect_stats := fun _ => tt;
  tent_configure_model := fun m => m;
  tent_collect_params := fun _ => tt;
  tent_Tent := fun m _ _ _ => Ok m;
  optim_Adam := fun _ lr betas wd => Ok (ToyAdam lr betas wd);
  optim_SGD := fun _ lr mo da wd ne => Ok (ToySGD lr mo da wd ne);
  reset := fun m =>
    if can_reset then (0%nat, Ok tt) else (m, Raise (AttributeError "reset"));
  accuracy := fun m x _ _ => Ok (0.75%float, S m)
|}.

Definition toy_cfg (adaptation : string) (evolve : bool) (method : string) : Cfg := {|
  MODEL := {| ADAPTATION := adaptation; EVOLVE := evolve; EPISODIC := false |};
  OPTIM := {| METHOD := method; LR := 0.001%float; BETA := 0.9%float;
              WD := 0%float; MOMENTUM := 0.9%float; DAMPENING := 0%float;
              NESTEROV := true; STEPS := 1 |};
  TEST := {| BATCH_SIZE := 200 |}
|}.

(** A split of [n] examples: image [i] with label [i mod 10]. *)
Definition toy_split (n : nat) : list (Z * Z) :=
  (fun i : nat => (Z.of_nat i, Z.of_nat i mod 10)) <$> seq 0 n.

(** The same framework without reset and with an accuracy utility that gives
    out: it raises once the model has adapted on [limit] batches. *)
Definition ToyFrameworkLimited (limit : nat) : @Framework ZOps := {|
  module := nat;
  weights := Z;
  params := unit;
  optimizer := toy_optimizer;
  LeNet5 := 0%nat;
  torch_load := fun _ =>
    Ok [("net"%string, [("module.conv1.weight"%string, 1); ("module.fc.bias"%string, 2)])];
  load_state_dict := fun m _ => Ok m;
  module_eval := fun m => m;
  norm_Norm := fun m => Ok m;
  norm_collect_stats := fun _ => tt;
  tent_configure_model := fun m => m;
  tent_collect_params := fun _ => tt;
  tent_Tent := fun m _ _ _ => Ok m;
  optim_Adam := fun _ lr betas wd => Ok (ToyAdam lr betas wd);
  optim_SGD := fun _ lr mo da wd ne => Ok (ToySGD lr mo da wd ne);
  reset := fun m => (m, Raise (AttributeError "reset"));
  accuracy := fun m x _ _ =>
    if (m <? limit)%nat then Ok (0.75%float, S m)
    else Raise (RuntimeError "CUDA out of memory")
|}.

(** * Facts *)

Local Open Scope nat_scope.

(** ** Batches *)

Section BatchFacts.
Context {A : Type}.
Implicit Types (l : list A) (bs k : nat).

Lemma length_batched bs l :
  length (batched bs l) = (length l + bs - 1) / bs.
Proof. unfold batched. by rewrite length_fmap, length_seq. Qed.

(** The first [k] groups, glued together, are the first [k * bs] items. *)
Lemma concat_groups bs l k :
  concat ((fun j : nat => take bs (drop (j * bs) l)) <$> seq 0 k) = take (k * bs) l.
Proof.
  induction k as [|k IH]; [done|].
  rewrite seq_S, fmap_app, concat_app, IH. simpl.
  rewrite app_nil_r, take_take_drop. f_equal. lia.
Qed.

Lemma concat_take_batched bs l k :
  concat (take k (batched bs l))
  = take (Nat.min k ((length l + bs - 1) / bs) * bs) l.
Proof.
  unfold batched. rewrite <- fmap_take, take_seq. apply concat_groups.
Qed.

(** Enough groups are made to hold every item. *)
Lemma batched_covers bs l :
  0 < bs -> length l <= (length l + bs - 1) / bs * bs.
Proof.
  intros Hbs.
  pose proof (Nat.div_mod_eq (length l + bs - 1) bs) as Hdm.
  pose proof (Nat.mod_upper_bound (length l + bs - 1) bs ltac:(lia)) as Hm.
  nia.
Qed.

Lemma concat_batched bs l : 0 < bs -> concat (batched bs l) = l.
Proof.
  intros Hbs.
  rewrite <- (take_ge (batched bs l) (length (batched bs l))) by lia.
  rewrite concat_take_batched, length_batched, Nat.min_id.
  apply take_ge, batched_covers, Hbs.
Qed.

Lemma batched_nil_iff bs l : 0 < bs -> batched bs l = [] <-> l = [].
Proof.
  intros Hbs. split.
  - intros H. pose proof (concat_batched bs l Hbs) as Hc.
    rewrite H in Hc. done.
  - intros ->. unfold batched. cbn [length].
    rewrite Nat.div_small by lia. done.
Qed.

End BatchFacts.

(** ** The loader *)

Section LoaderFacts.
Context {ops : ImageOps}.
Implicit Types (split : list (img * Z)) (gen : list nat) (rotation : Z)
  (n_examples : option Z).

Lemma mapM_getitem_seq (d : MNIST) :
  mapM (MNIST_getitem d) (seq 0 (MNIST_len d))
  = Some ((fun e => (transform_of d (fst e), snd e)) <$> data d).
Proof.
  apply mapM_Some_2, Forall2_same_length_lookup_2.
  - unfold MNIST_len. by rewrite length_seq, length_fmap.
  - intros i x y Hx Hy. apply lookup_seq in Hx as [-> _].
    unfold MNIST_getitem. by rewrite <- list_lookup_fmap.
Qed.

(** Without shuffling the loader yields the stored examples, in order,
    whatever the random generator holds. *)
Lemma DataLoader_sequential (d : MNIST) bs gen :
  DataLoader d bs false gen
  = Ok (collate <$> batched bs ((fun e => (transform_of d (fst e), snd e)) <$> data d)).
Proof. unfold DataLoader, sampler. by rewrite mapM_getitem_seq. Qed.

Lemma cap_reached_iff (n : Z) (i : nat) :
  cap_reached (Some n) i = true <-> Z.to_nat ((n + 99) / 100) <= i.
Proof.
  unfold cap_reached, batch_size. rewrite Z.leb_le.
  pose proof (Z.div_mod (n + 99) 100 ltac:(lia)) as Hdm.
  pose proof (Z.mod_pos_bound (n + 99) 100 ltac:(lia)) as Hm.
  lia.
Qed.

(** The loop appends a prefix of the batches, of the length [batches_taken]
    gives. *)
Lemma accumulate_spec n_examples (loader : list (list img * list Z)) :
  forall (i : nat) x_test y_test,
    accumulate n_examples i loader x_test y_test
    = (x_test ++ (fst <$> take (batches_taken n_examples i (length loader)) loader),
       y_test ++ (snd <$> take (batches_taken n_examples i (length loader)) loader)).
Proof.
  induction loader as [|[x y] rest IH]; intros i x_test y_test.
  - simpl. rewrite take_nil. simpl. by rewrite !app_nil_r.
  - cbn [accumulate]. destruct (cap_reached n_examples i) eqn:Hcap.
    + destruct n_examples as [n|]; [|done].
      apply cap_reached_iff in Hcap. unfold batches_taken.
      replace (Nat.min (length ((x, y) :: rest)) (S (Z.to_nat ((n + 99) / 100) - i)))
        with 1 by (simpl; lia).
      done.
    + rewrite IH, <- !app_assoc.
      assert (batches_taken n_examples i (length ((x, y) :: rest))
              = S (batches_taken n_examples (S i) (length rest))) as ->.
      { destruct n_examples as [n|]; [|done].
        assert (~ Z.to_nat ((n + 99) / 100) <= i) as Hlt.
        { rewrite <- cap_reached_iff. by rewrite Hcap. }
        unfold batches_taken. simpl. lia. }
      done.
Qed.

Lemma batches_taken_pos n_examples len : 0 < len -> 0 < batches_taken n_examples 0 len.
Proof. destruct n_examples; simpl; lia. Qed.

Lemma batches_taken_le n_examples i len : batches_taken n_examples i len <= len.
Proof. destruct n_examples; simpl; lia. Qed.

End LoaderFacts.

Section LoaderResult.
Context {ops : ImageOps}.
Implicit Types (split : list (img * Z)) (gen : list nat) (rotation : Z)
  (n_examples : option Z).

Lemma concat_collate_fst (bs : list (list (img * Z))) :
  concat (fst <$> (collate <$> bs)) = fst <$> concat bs.
Proof.
  induction bs as [|b bs IH]; [done|].
  rewrite !fmap_cons. cbn [concat]. by rewrite IH, fmap_app.
Qed.

Lemma concat_collate_snd (bs : list (list (img * Z))) :
  concat (snd <$> (collate <$> bs)) = snd <$> concat bs.
Proof.
  induction bs as [|b bs IH]; [done|].
  rewrite !fmap_cons. cbn [concat]. by rewrite IH, fmap_app.
Qed.

Lemma load_cifar_r_empty gen rotation n_examples :
  load_cifar_r [] gen rotation n_examples
  = Raise (OtherError "torch.cat of an empty list").
Proof. done. Qed.

(** On a non-empty split the call returns the cut of what was gathered. *)
Lemma load_cifar_r_spec split gen rotation n_examples :
  split <> [] ->
  load_cifar_r split gen rotation n_examples
  = Ok (cut n_examples (fst <$> gathered rotation n_examples split),
        cut n_examples (snd <$> gathered rotation n_examples split)).
Proof.
  intros Hne. unfold load_cifar_r.
  rewrite DataLoader_sequential. cbn [data transform_of].
  fold (examples rotation split).
  set (items := examples rotation split).
  assert (items <> []) as Hitems.
  { unfold items, examples. destruct split; [done|]. discriminate. }
  rewrite accumulate_spec. rewrite !app_nil_l, length_fmap.
  set (k := batches_taken n_examples 0 (length (batched batch_size items))).
  assert (0 < k <= length (batched batch_size items)) as Hk.
  { split; [|apply batches_taken_le].
    apply batches_taken_pos.
    destruct (batched batch_size items) eqn:Hb; [|simpl; lia].
    apply batched_nil_iff in Hb; [done | unfold batch_size; lia]. }
  rewrite <- fmap_take.
  assert (take k (batched batch_size items) <> []) as Htk.
  { intros H. apply (f_equal length) in H. rewrite length_take in H.
    simpl in H. lia. }
  assert (concat (take k (batched batch_size items)) = gathered rotation n_examples split)
    as Hcat.
  { rewrite concat_take_batched. unfold gathered. fold items. fold k.
    rewrite length_batched in Hk. by rewrite Nat.min_l by lia. }
  destruct (take k (batched batch_size items)) as [|b bs] eqn:Htake; [done|].
  cbn [fmap list_fmap torch_cat].
  change (concat (fst (collate b) :: (fst <$> (collate <$> bs))))
    with (concat (fst <$> (collate <$> (b :: bs)))).
  change (concat (snd (collate b) :: (snd <$> (collate <$> bs))))
    with (concat (snd <$> (collate <$> (b :: bs)))).
  rewrite concat_collate_fst, concat_collate_snd, Hcat.
  by destruct n_examples.
Qed.

End LoaderResult.

Section LoaderShape.
Context {ops : ImageOps}.
Implicit Types (split : list (img * Z)) (gen : list nat) (rotation : Z)
  (n_examples : option Z).

Lemma cut_take {A : Type} n_examples (l : list A) :
  cut n_examples l = take (cut_length n_examples (length l)) l.
Proof.
  destruct n_examples as [n|]; simpl.
  - unfold slice_to. by destruct (0 <=? n)%Z.
  - by rewrite take_ge.
Qed.

Lemma examples_pipeline rotation split :
  examples rotation split
  = (fun e => (rotate (normalize [MNIST_MEAN] [MNIST_STD] (to_tensor (fst e))) rotation,
               snd e)) <$> split.
Proof. done. Qed.

Lemma length_examples rotation split :
  length (examples rotation split) = length split.
Proof. unfold examples. by rewrite length_fmap. Qed.

(** Without a cap everything is gathered. *)
Lemma gathered_None rotation split :
  gathered rotation None split = examples rotation split.
Proof.
  unfold gathered. simpl. rewrite length_batched.
  apply take_ge, batched_covers. unfold batch_size. lia.
Qed.

Lemma length_gathered_Some rotation (m : Z) split :
  length (gathered rotation (Some m) split)
  = Nat.min (length split) (100 * (Z.to_nat ((m + 99) / 100) + 1)).
Proof.
  unfold gathered. rewrite length_take, length_examples.
  cbn [batches_taken]. rewrite length_batched, length_examples.
  pose proof (batched_covers batch_size split ltac:(unfold batch_size; lia)) as Hc.
  unfold batch_size in *.
  set (nb := (length split + 100 - 1) / 100) in *.
  set (c := Z.to_nat ((m + 99) / 100)).
  rewrite Nat.sub_0_r.
  destruct (decide (nb <= S c)); lia.
Qed.

(** Whatever the cap, both results are the same-length prefix of the
    stored examples. *)
Lemma load_cifar_r_prefix split gen rotation n_examples xs ys :
  load_cifar_r split gen rotation n_examples = Ok (xs, ys) ->
  exists k, xs = take k (fst <$> examples rotation split)
            /\ ys = take k (snd <$> examples rotation split).
Proof.
  destruct split as [|e split']; [by rewrite load_cifar_r_empty|].
  rewrite load_cifar_r_spec by done. intros [= <- <-].
  rewrite !cut_take, !length_fmap. unfold gathered.
  rewrite <- !fmap_take, !take_take. rewrite !fmap_take.
  eexists. split; reflexivity.
Qed.

End LoaderShape.

(** ** Claims about the loader *)

Section LoaderClaims.
Context {ops : ImageOps}.
Implicit Types (split : list (img * Z)) (gen : list nat) (rotation : Z)
  (n_examples : option Z).

(** C1.  With a positive cap [m] no larger than the split, the loader
    gathers whole batches (those with index up to the first one whose
    index times 100 reaches [m], so at least one batch more than a plain
    prefix take needs) and then cuts: both results have length exactly
    [m] and are the first [m] examples of what the uncapped call returns. *)
Theorem cap_truncates_gathered_batches split gen rotation (m : Z) :
  (0 < m)%Z ->
  (m <= Z.of_nat (length split))%Z ->
  let dataset := {| data := split; transform_of := Compose (loader_transform rotation) |} in
  let test_loader := collate <$> batched batch_size (examples rotation split) in
  let k := Nat.min (length test_loader) (Z.to_nat ((m + 99) / 100) + 1) in
  exists xs ys xf yf,
    DataLoader dataset batch_size false gen = Ok test_loader
    /\ accumulate (Some m) 0 test_loader [] []
       = (fst <$> take k test_loader, snd <$> take k test_loader)
    /\ load_cifar_r split gen rotation (Some m) = Ok (xs, ys)
    /\ load_cifar_r split gen rotation None = Ok (xf, yf)
    /\ xs = slice_to m (fst <$> gathered rotation (Some m) split)
    /\ ys = slice_to m (snd <$> gathered rotation (Some m) split)
    /\ length (gathered rotation (Some m) split)
       = Nat.min (length split) (100 * (Z.to_nat ((m + 99) / 100) + 1))
    /\ length xs = Z.to_nat m
    /\ length ys = Z.to_nat m
    /\ xs = take (Z.to_nat m) xf
    /\ ys = take (Z.to_nat m) yf.
Proof.
  intros Hpos Hle dataset test_loader k.
  assert (split <> []) as Hne by (intros ->; simpl in Hle; lia).
  assert (accumulate (Some m) 0 test_loader [] []
          = (fst <$> take k test_loader, snd <$> take k test_loader)) as Hloop.
  { rewrite accumulate_spec, !app_nil_l. unfold batches_taken.
    by replace (S (Z.to_nat ((m + 99) / 100) - 0)) with (Z.to_nat ((m + 99) / 100) + 1)
      by lia. }
  pose proof (length_gathered_Some rotation m split) as Hlen.
  assert (Z.to_nat m <= length (gathered rotation (Some m) split)) as Hm.
  { rewrite Hlen.
    pose proof (Z.div_mod (m + 99) 100 ltac:(lia)) as Hdm.
    pose proof (Z.mod_pos_bound (m + 99) 100 ltac:(lia)) as Hmod.
    assert (0 <= (m + 99) / 100)%Z by (apply Z.div_pos; lia).
    lia. }
  assert (forall (B : Type) (f : img * Z -> B),
            slice_to m (f <$> gathered rotation (Some m) split)
            = take (Z.to_nat m) (f <$> examples rotation split)) as Hcut.
  { intros B f. unfold slice_to.
    replace (0 <=? m)%Z with true by (symmetry; apply Z.leb_le; lia).
    unfold gathered in *. rewrite <- !fmap_take, take_take. do 2 f_equal.
    rewrite length_take in Hm. lia. }
  exists (slice_to m (fst <$> gathered rotation (Some m) split)),
         (slice_to m (snd <$> gathered rotation (Some m) split)),
         (fst <$> examples rotation split),
         (snd <$> examples rotation split).
  rewrite !load_cifar_r_spec by done. cbn [cut]. rewrite gathered_None.
  split_and!; try done; try apply Hcut; try apply DataLoader_sequential;
    rewrite Hcut, length_take, length_fmap, length_examples; lia.
Qed.

(** Every input the loader returns went through the pipeline in the order
    it lists, and sits at the index of its image and next to its label. *)
Lemma loader_applies_pipeline split gen rotation n_examples xs ys (i : nat) x :
  load_cifar_r split gen rotation n_examples = Ok (xs, ys) ->
  xs !! i = Some x ->
  exists raw label,
    split !! i = Some (raw, label)
    /\ x = rotate (normalize [0.1307%float] [0.3081%float] (to_tensor raw)) rotation
    /\ ys !! i = Some label.
Proof.
  intros Hload Hx.
  destruct (load_cifar_r_prefix _ _ _ _ _ _ Hload) as (k & -> & ->).
  apply lookup_take_Some in Hx as [Hx Hik].
  rewrite examples_pipeline in *.
  rewrite list_lookup_fmap, list_lookup_fmap in Hx.
  destruct (split !! i) as [[raw label]|] eqn:Hi; [|done].
  simpl in Hx. injection Hx as <-.
  exists raw, label. split_and!; [done..|].
  rewrite lookup_take_lt by done.
  by rewrite !list_lookup_fmap, Hi.
Qed.

(** C8.  The result does not depend on the state of the random generator:
    two calls with the same arguments return the same pair, or raise the
    same error, and on a non-empty split that pair is a prefix of the
    examples in stored order. *)
Theorem loader_is_deterministic split rotation n_examples gen1 gen2 :
  load_cifar_r split gen1 rotation n_examples
  = load_cifar_r split gen2 rotation n_examples
  /\ (split <> [] ->
      exists k,
        load_cifar_r split gen1 rotation n_examples
        = Ok (take k (fst <$> examples rotation split),
              take k (snd <$> examples rotation split))).
Proof.
  split.
  - unfold load_cifar_r. by rewrite !DataLoader_sequential.
  - intros Hne. rewrite load_cifar_r_spec by done.
    rewrite !cut_take, !length_fmap. unfold gathered.
    rewrite <- !fmap_take, !take_take, !fmap_take. eexists. reflexivity.
Qed.

(** C9.  On a non-empty split, for an unset cap and for every integer cap,
    the two results have equal length, and they are the same cut applied
    to two gathered sequences of equal length. *)
Theorem inputs_and_labels_same_length split gen rotation n_examples :
  split <> [] ->
  exists xs ys,
    load_cifar_r split gen rotation n_examples = Ok (xs, ys)
    /\ length xs = length ys
    /\ length (fst <$> gathered rotation n_examples split)
       = length (snd <$> gathered rotation n_examples split)
    /\ xs = cut n_examples (fst <$> gathered rotation n_examples split)
    /\ ys = cut n_examples (snd <$> gathered rotation n_examples split)
    /\ exists k, xs = take k (fst <$> gathered rotation n_examples split)
                 /\ ys = take k (snd <$> gathered rotation n_examples split).
Proof.
  intros Hne. do 2 eexists. rewrite load_cifar_r_spec by done.
  split; [reflexivity|].
  rewrite !cut_take, !length_take, !length_fmap.
  split_and!; try done. eexists. split; reflexivity.
Qed.

End LoaderClaims.

(** ** The driver *)

Section DriverFacts.
Context {ops : ImageOps} {fw : Framework}.
Implicit Types (cfg : Cfg) (split : list (img * Z)) (gen : list nat)
  (s : state) (m : module).

#[local] Existing Instances M_ret M_bind.

Ltac run :=
  unfold call_reset, call_accuracy, logger_info, logger_warning;
  unfold mbind, M_bind, bind, mret, M_ret, ret, lift, raise, emit,
    get_model, set_model, try_except;
  cbn [trace model fst snd t_angle t_before t_reset t_used t_acc t_after].

(** The uncapped call returns every example of a non-empty split. *)
Lemma load_cifar_r_None split gen rotation :
  split <> [] ->
  load_cifar_r split gen rotation None
  = Ok (fst <$> examples rotation split, snd <$> examples rotation split).
Proof.
  intros Hne. rewrite load_cifar_r_spec by done.
  by rewrite gathered_None.
Qed.

(** A turn entered with a bound model completes. *)
Lemma sweep_step_normal cfg split gen (a : Z) s m :
  split <> [] ->
  accuracy_returns ->
  model s = Some m ->
  exists t : turn,
    sweep_step cfg split gen a s
    = (Ok tt, {| trace := trace s ++ turn_events cfg split t;
                 model := Some (t_after t) |})
    /\ t_angle t = a /\ t_before t = m /\ turn_ok cfg split t.
Proof.
  intros Hne Hacc Hm. destruct s as [tr mo]. simpl in Hm. subst mo.
  unfold sweep_step, turn_ok, turn_events, evaluation_events.
  rewrite load_cifar_r_None by done.
  destruct (EVOLVE (MODEL cfg)) eqn:Hev; cbn [negb].
  - destruct (Hacc m (fst <$> examples a split) (snd <$> examples a split)
                (BATCH_SIZE (TEST cfg))) as (acc & m' & Ha).
    exists {| t_angle := a; t_before := m; t_reset := None; t_used := m;
              t_acc := acc; t_after := m' |}.
    run. rewrite Ha. cbn [trace model reset_events app].
    rewrite <- !app_assoc. done.
  - destruct (reset m) as [m1 r] eqn:Hr.
    destruct (Hacc m1 (fst <$> examples a split) (snd <$> examples a split)
                (BATCH_SIZE (TEST cfg))) as (acc & m' & Ha).
    exists {| t_angle := a; t_before := m; t_reset := Some (m1, r); t_used := m1;
              t_acc := acc; t_after := m' |}.
    run. rewrite Hr. cbn [trace model fst snd].
    destruct r as [[]|e]; cbn [trace model reset_events app];
      rewrite Ha; cbn [trace model]; rewrite <- !app_assoc; done.
Qed.

(** A sweep entered with a bound model completes, turn after turn. *)
Lemma sweep_normal cfg split gen (angles : list Z) :
  split <> [] ->
  accuracy_returns ->
  forall s m,
    model s = Some m ->
    exists ts : list turn,
      sweep cfg split gen angles s
      = (Ok tt, {| trace := trace s ++ concat (turn_events cfg split <$> ts);
                   model := Some (last_state m ts) |})
      /\ t_angle <$> ts = angles
      /\ Forall (turn_ok cfg split) ts
      /\ chained m ts.
Proof.
  intros Hne Hacc. induction angles as [|a angles IH]; intros s m Hm.
  - exists []. destruct s as [tr mo]. simpl in *. subst.
    unfold mret, M_ret, ret. by rewrite app_nil_r.
  - destruct (sweep_step_normal cfg split gen a s m Hne Hacc Hm)
      as (t & Hstep & Ha & Hb & Hok).
    destruct (IH {| trace := trace s ++ turn_events cfg split t;
                    model := Some (t_after t) |} (t_after t) eq_refl)
      as (ts & Hrest & Hangles & Hall & Hch).
    exists (t :: ts). cbn [sweep]. unfold mbind, M_bind, bind.
    rewrite Hstep, Hrest. cbn [trace model fmap list_fmap concat last_state chained].
    rewrite <- app_assoc. split_and!; try done.
    + by f_equal.
    + by constructor.
Qed.

End DriverFacts.

Section PreludeFacts.
Context {ops : ImageOps} {fw : Framework}.
Implicit Types (cfg : Cfg) (split : list (img * Z)) (gen : list nat)
  (s : state) (m : module).

#[local] Existing Instances M_ret M_bind.

Ltac run :=
  unfold setup_source, setup_norm, setup_tent, logger_info, logger_warning;
  unfold mbind, M_bind, bind, mret, M_ret, ret, lift, raise, emit,
    get_model, set_model, try_except;
  cbn [trace model fst snd].

Lemma view_app keep (l1 l2 : list event) :
  view keep (l1 ++ l2) = view keep l1 ++ view keep l2.
Proof. apply List.filter_app. Qed.

Lemma view_weaken (keep keep' : event -> bool) (l : list event) :
  (forall ev, keep ev = true -> keep' ev = true) ->
  view keep' l = [] -> view keep l = [].
Proof.
  intros Hsub. induction l as [|ev l IH]; [done|].
  unfold view in *. simpl. destruct (keep' ev) eqn:Hk'; [done|].
  intros Hl. destruct (keep ev) eqn:Hk; [|by apply IH].
  apply Hsub in Hk. congruence.
Qed.

(** Loading the checkpoint prints one line and binds nothing. *)
Lemma bootstrap_state s r s' :
  bootstrap s = (r, s') ->
  s' = {| trace := trace s ++ [EPrint "==> Loading from checkpoint.."];
          model := model s |}.
Proof.
  unfold bootstrap. run.
  destruct (torch_load _) as [checkpoint|e]; [|by intros [= _ <-]].
  destruct (PyDict.getitem _ _) as [sd|e]; [|by intros [= _ <-]].
  destruct (strip_module_prefix _) as [sd'|e]; [|by intros [= _ <-]].
  by intros [= _ <-].
Qed.

(** The selector only logs. *)
Lemma select_only_logs cfg m s r s' :
  select cfg m s = (r, s') ->
  view is_loop_event (trace s') = view is_loop_event (trace s).
Proof.
  unfold select. run.
  destruct (String.eqb (ADAPTATION (MODEL cfg)) "source");
    destruct (String.eqb (ADAPTATION (MODEL cfg)) "norm");
    destruct (String.eqb (ADAPTATION (MODEL cfg)) "tent");
    cbn [trace model];
    repeat match goal with
      | |- context [norm_Norm ?x] => destruct (norm_Norm x); cbn [trace model]
      | |- context [setup_optimizer ?c ?x] =>
          destruct (setup_optimizer c x); cbn [trace model]
      | |- context [tent_Tent ?a ?b ?c ?d] =>
          destruct (tent_Tent a b c d); cbn [trace model]
      end;
    intros [= _ <-]; cbn [trace];
    rewrite ?view_app; cbn; by rewrite ?app_nil_r.
Qed.

(** An adaptation mode outside the three known ones selects nothing. *)
Lemma select_unknown cfg m s :
  ADAPTATION (MODEL cfg) <> "source"%string ->
  ADAPTATION (MODEL cfg) <> "norm"%string ->
  ADAPTATION (MODEL cfg) <> "tent"%string ->
  select cfg m s = (Ok tt, s).
Proof.
  intros H1 H2 H3. unfold select.
  apply String.eqb_neq in H1, H2, H3. rewrite H1, H2, H3.
  run. by destruct s.
Qed.

(** In tent mode an optimizer method that is not implemented stops the
    selector right after its first log line. *)
Lemma select_tent_unimplemented cfg m s :
  ADAPTATION (MODEL cfg) = "tent"%string ->
  setup_optimizer cfg (tent_collect_params (tent_configure_model m))
  = Raise NotImplementedError ->
  select cfg m s
  = (Raise NotImplementedError,
     {| trace := trace s ++ [ELog INFO (Text "test-time adaptation: TENT")];
        model := model s |}).
Proof.
  intros Hmode Hopt. unfold select. rewrite Hmode. cbn [String.eqb Ascii.eqb].
  run. cbn. by rewrite Hopt.
Qed.

End PreludeFacts.

Section RunFacts.
Context {ops : ImageOps} {fw : Framework}.
Implicit Types (cfg : Cfg) (split : list (img * Z)) (gen : list nat)
  (s : state) (m : module) (ts : list turn).

#[local] Existing Instances M_ret M_bind.

Lemma range_sweep :
  range 0 181 10 = [0; 10; 20; 30; 40; 50; 60; 70; 80; 90; 100; 110; 120; 130;
                    140; 150; 160; 170; 180]%Z.
Proof. reflexivity. Qed.

Lemma evaluate_steps cfg split gen s :
  evaluate cfg split gen s
  = match bootstrap s with
    | (Ok base_model, s0) =>
        match select cfg base_model s0 with
        | (Ok _, s1) => sweep cfg split gen (range 0 181 10) s1
        | (Raise e, s1) => (Raise e, s1)
        end
    | (Raise e, s0) => (Raise e, s0)
    end.
Proof.
  unfold evaluate, mbind, M_bind, bind.
  destruct (bootstrap s) as [[base|e] s0]; [|done].
  by destruct (select cfg base s0) as [[[]|e] s1].
Qed.

Lemma view_concat keep (f : turn -> list event) ts :
  view keep (concat (f <$> ts)) = concat ((fun t => view keep (f t)) <$> ts).
Proof.
  induction ts as [|t ts IH]; [done|].
  rewrite !fmap_cons. cbn [concat]. by rewrite view_app, IH.
Qed.

Lemma evaluation_in_loop (ev : event) :
  is_evaluation_event ev = true -> is_loop_event ev = true.
Proof. by destruct ev as [ | lvl [] | | | | ]. Qed.

Lemma reset_or_accuracy_in_loop (ev : event) :
  is_reset_or_accuracy ev = true -> is_loop_event ev = true.
Proof. by destruct ev as [ | lvl [] | | | | ]. Qed.

Lemma reset_in_loop (ev : event) : is_reset ev = true -> is_loop_event ev = true.
Proof. by destruct ev as [ | lvl [] | | | | ]. Qed.

(** When the loop is reached nothing of it has happened yet. *)
Lemma prelude_quiet cfg base s0 r s1 :
  bootstrap initial = (Ok base, s0) ->
  select cfg base s0 = (r, s1) ->
  view is_loop_event (trace s1) = [].
Proof.
  intros Hb Hs. apply select_only_logs in Hs. rewrite Hs.
  apply bootstrap_state in Hb. by subst s0.
Qed.

(** A run that reaches the loop with a model bound completes the sweep. *)
Lemma evaluate_normal cfg split gen base s0 s1 m0 :
  bootstrap initial = (Ok base, s0) ->
  select cfg base s0 = (Ok tt, s1) ->
  model s1 = Some m0 ->
  split <> [] ->
  accuracy_returns ->
  exists ts,
    evaluate cfg split gen initial
    = (Ok tt, {| trace := trace s1 ++ concat (turn_events cfg split <$> ts);
                 model := Some (last_state m0 ts) |})
    /\ t_angle <$> ts = range 0 181 10
    /\ Forall (turn_ok cfg split) ts
    /\ chained m0 ts.
Proof.
  intros Hb Hs Hm Hne Hacc.
  destruct (sweep_normal cfg split gen (range 0 181 10) Hne Hacc s1 m0 Hm)
    as (ts & Hrun & Hrest).
  exists ts. by rewrite evaluate_steps, Hb, Hs, Hrun.
Qed.

Lemma turns_length ts : t_angle <$> ts = range 0 181 10 -> length ts = 19.
Proof. intros H. apply (f_equal length) in H. by rewrite length_fmap in H. Qed.

Lemma view_evaluation_turn cfg split (t : turn) :
  view is_evaluation_event (turn_events cfg split t) = evaluation_events cfg split t.
Proof.
  unfold turn_events. rewrite view_app.
  by destruct (t_reset t) as [[after [[]|e]]|].
Qed.

(** With [EVOLVE] set no path through a turn reaches the reset call. *)
Lemma sweep_step_evolve_no_reset cfg split gen (a : Z) s :
  EVOLVE (MODEL cfg) = true ->
  view is_reset (trace (sweep_step cfg split gen a s).2) = view is_reset (trace s).
Proof.
  intros Hev. unfold sweep_step. rewrite Hev. cbn [negb].
  unfold call_accuracy, logger_info, mbind, M_bind, bind, mret, M_ret, ret, lift,
    raise, emit, get_model, set_model.
  cbn [trace model].
  destruct (load_cifar_r split gen a None) as [[x y]|e]; cbn [trace model snd];
    [|rewrite view_app; cbn; by rewrite app_nil_r].
  destruct (model s) as [m|]; cbn [trace model snd];
    [|rewrite view_app; cbn; by rewrite app_nil_r].
  destruct (accuracy m x y (BATCH_SIZE (TEST cfg))) as [[acc m']|e];
    cbn [trace model snd]; rewrite !view_app; cbn; by rewrite !app_nil_r.
Qed.

Lemma sweep_evolve_no_reset cfg split gen (angles : list Z) :
  EVOLVE (MODEL cfg) = true ->
  forall s,
    view is_reset (trace (sweep cfg split gen angles s).2) = view is_reset (trace s).
Proof.
  intros Hev. induction angles as [|a angles IH]; intros s; [done|].
  cbn [sweep]. unfold mbind, M_bind, bind.
  pose proof (sweep_step_evolve_no_reset cfg split gen a s Hev) as Hstep.
  destruct (sweep_step cfg split gen a s) as [[[]|e] s']; cbn [snd] in *.
  - by rewrite IH.
  - done.
Qed.

End RunFacts.

(** ** Claims about the driver *)

Section DriverClaims.
Context {ops : ImageOps} {fw : Framework}.
Implicit Types (cfg : Cfg) (split : list (img * Z)) (gen : list nat)
  (s : state) (m : module) (ts : list turn).

#[local] Existing Instances M_ret M_bind.

(** C3.  A run that reaches the loop with a model bound, on a non-empty
    split and with an accuracy utility that returns, ends normally after
    one turn per angle of 0, 10, ..., 180, in that order.  Its evaluation
    events are, angle after angle: the uncapped load of the angle, the
    accuracy call on what that load returns with the configured batch
    size, and the log of the angle with one minus the accuracy. *)
Theorem one_evaluation_per_angle cfg split gen base s0 s1 m0 :
  bootstrap initial = (Ok base, s0) ->
  select cfg base s0 = (Ok tt, s1) ->
  model s1 = Some m0 ->
  split <> [] ->
  accuracy_returns ->
  exists s' ts,
    evaluate cfg split gen initial = (Ok tt, s')
    /\ t_angle <$> ts = [0; 10; 20; 30; 40; 50; 60; 70; 80; 90; 100; 110; 120;
                         130; 140; 150; 160; 170; 180]%Z
    /\ length ts = 19
    /\ view is_evaluation_event (trace s')
       = concat ((fun t =>
                    [ELoad (t_angle t) None;
                     EAccuracy (t_used t)
                       (fst <$> examples (t_angle t) split)
                       (snd <$> examples (t_angle t) split)
                       (BATCH_SIZE (TEST cfg)) (Ok (t_acc t, t_after t));
                     ELog INFO (ErrorPct (t_angle t) (1 - t_acc t)%float)]) <$> ts)
    /\ Forall (fun t =>
                 load_cifar_r split gen (t_angle t) None
                 = Ok (fst <$> examples (t_angle t) split,
                       snd <$> examples (t_angle t) split)
                 /\ accuracy (t_used t)
                      (fst <$> examples (t_angle t) split)
                      (snd <$> examples (t_angle t) split)
                      (BATCH_SIZE (TEST cfg))
                    = Ok (t_acc t, t_after t)) ts.
Proof.
  intros Hb Hs Hm Hne Hacc.
  destruct (evaluate_normal cfg split gen base s0 s1 m0 Hb Hs Hm Hne Hacc)
    as (ts & Hrun & Hangles & Hok & _).
  eexists _, ts. split; [exact Hrun|]. cbn [trace].
  split; [by rewrite Hangles, range_sweep|].
  split; [by apply turns_length|].
  split.
  - rewrite view_app.
    rewrite (view_weaken is_evaluation_event is_loop_event (trace s1));
      [|apply evaluation_in_loop | by eapply prelude_quiet].
    rewrite app_nil_l, view_concat.
    f_equal. apply list_fmap_ext. intros _ t _. apply view_evaluation_turn.
  - eapply Forall_impl; [exact Hok|]. intros t (_ & _ & Ha).
    split; [by apply load_cifar_r_None | exact Ha].
Qed.

Lemma view_reset_or_accuracy_turn cfg split (t : turn) :
  turn_ok cfg split t ->
  view is_reset_or_accuracy (turn_events cfg split t)
  = (if EVOLVE (MODEL cfg) then []
     else [EReset (t_before t) (reset (t_before t)).1 (reset (t_before t)).2])
    ++ [EAccuracy
          (if EVOLVE (MODEL cfg) then t_before t else (reset (t_before t)).1)
          (fst <$> examples (t_angle t) split) (snd <$> examples (t_angle t) split)
          (BATCH_SIZE (TEST cfg)) (Ok (t_acc t, t_after t))].
Proof.
  intros (Hr & Hu & _). unfold turn_events, evaluation_events.
  rewrite view_app, Hr, Hu.
  destruct (EVOLVE (MODEL cfg)); [done|].
  by destruct (reset (t_before t)) as [after [[]|e]].
Qed.

(** C4.  With [EVOLVE] set no run ever calls reset, whatever else happens
    in it.  In a run that completes the sweep, the reset and accuracy
    calls are, turn after turn: with [EVOLVE] unset one reset call on the
    state the previous turn left, then the accuracy call on the state that
    reset leaves; with [EVOLVE] set only the accuracy call, on the state
    the previous turn left. *)
Theorem reset_attempted_iff_not_evolving cfg split gen :
  (EVOLVE (MODEL cfg) = true ->
   view is_reset (trace (evaluate cfg split gen initial).2) = [])
  /\ (forall base s0 s1 m0,
        bootstrap initial = (Ok base, s0) ->
        select cfg base s0 = (Ok tt, s1) ->
        model s1 = Some m0 ->
        split <> [] ->
        accuracy_returns ->
        exists s' ts,
          evaluate cfg split gen initial = (Ok tt, s')
          /\ length ts = 19
          /\ chained m0 ts
          /\ view is_reset_or_accuracy (trace s')
             = concat ((fun t =>
                 (if EVOLVE (MODEL cfg) then []
                  else [EReset (t_before t) (reset (t_before t)).1
                          (reset (t_before t)).2])
                 ++ [EAccuracy
                       (if EVOLVE (MODEL cfg) then t_before t
                        else (reset (t_before t)).1)
                       (fst <$> examples (t_angle t) split)
                       (snd <$> examples (t_angle t) split)
                       (BATCH_SIZE (TEST cfg)) (Ok (t_acc t, t_after t))]) <$> ts)).
Proof.
  split.
  - intros Hev. rewrite evaluate_steps.
    destruct (bootstrap initial) as [[base|e] s0] eqn:Hb.
    + destruct (select cfg base s0) as [[[]|e] s1] eqn:Hs.
      * rewrite sweep_evolve_no_reset by done.
        apply (view_weaken is_reset is_loop_event); [apply reset_in_loop|].
        by eapply prelude_quiet.
      * apply (view_weaken is_reset is_loop_event); [apply reset_in_loop|].
        by eapply prelude_quiet.
    + apply bootstrap_state in Hb. by subst s0.
  - intros base s0 s1 m0 Hb Hs Hm Hne Hacc.
    destruct (evaluate_normal cfg split gen base s0 s1 m0 Hb Hs Hm Hne Hacc)
      as (ts & Hrun & Hangles & Hok & Hch).
    eexists _, ts. split; [exact Hrun|]. cbn [trace].
    split; [by apply turns_length|]. split; [done|].
    rewrite view_app.
    rewrite (view_weaken is_reset_or_accuracy is_loop_event (trace s1));
      [|apply reset_or_accuracy_in_loop | by eapply prelude_quiet].
    rewrite app_nil_l, view_concat. f_equal.
    apply Forall_fmap_ext. eapply Forall_impl; [exact Hok|].
    intros t Ht. by apply view_reset_or_accuracy_turn.
Qed.

(** C5.  With [EVOLVE] unset, a run that reaches the loop ends normally
    after all 19 turns whatever the reset calls do.  In every turn whose
    reset call raises, the error is caught, the warning is logged, and the
    angle is loaded and evaluated on the state the failed call left: the
    state of the previous turn, not reset, when the wrapper has no reset and
    so leaves the state as it was. *)
Theorem failed_reset_is_not_fatal cfg split gen base s0 s1 m0 :
  bootstrap initial = (Ok base, s0) ->
  select cfg base s0 = (Ok tt, s1) ->
  model s1 = Some m0 ->
  split <> [] ->
  accuracy_returns ->
  EVOLVE (MODEL cfg) = false ->
  exists s' ts,
    evaluate cfg split gen initial = (Ok tt, s')
    /\ length ts = 19
    /\ chained m0 ts
    /\ trace s' = trace s1 ++ concat (turn_events cfg split <$> ts)
    /\ Forall (fun t =>
          forall after e,
            reset (t_before t) = (after, Raise e) ->
            turn_events cfg split t
            = [EReset (t_before t) after (Raise e);
               ECaught e;
               ELog WARNING (Text "not resetting model");
               ELoad (t_angle t) None;
               EAccuracy after
                 (fst <$> examples (t_angle t) split)
                 (snd <$> examples (t_angle t) split)
                 (BATCH_SIZE (TEST cfg)) (Ok (t_acc t, t_after t));
               ELog INFO (ErrorPct (t_angle t) (1 - t_acc t)%float)]) ts.
Proof.
  intros Hb Hs Hm Hne Hacc Hev.
  destruct (evaluate_normal cfg split gen base s0 s1 m0 Hb Hs Hm Hne Hacc)
    as (ts & Hrun & Hangles & Hok & Hch).
  eexists _, ts. split; [exact Hrun|]. cbn [trace].
  split; [by apply turns_length|]. do 2 (split; [done|]).
  eapply Forall_impl; [exact Hok|].
  intros t (Hr & Hu & _) after e He. rewrite Hev in Hr, Hu.
  unfold turn_events, evaluation_events. rewrite Hr, Hu, He. done.
Qed.

(** C6.  [setup_optimizer] is the Adam constructor on the learning rate,
    the pair of [BETA] and 0.999, and the weight decay when the method is
    Adam; the SGD constructor on the learning rate, momentum, dampening,
    weight decay and Nesterov flag when it is SGD; and for any other method
    it raises the not-implemented error.  In tent mode that error ends the
    run before a model is bound and before anything of the loop happens. *)
Theorem setup_optimizer_by_method cfg (ps : params) :
  (METHOD (OPTIM cfg) = "Adam"%string ->
   setup_optimizer cfg ps
   = optim_Adam ps (LR (OPTIM cfg)) (BETA (OPTIM cfg), 0.999%float) (WD (OPTIM cfg)))
  /\ (METHOD (OPTIM cfg) = "SGD"%string ->
      setup_optimizer cfg ps
      = optim_SGD ps (LR (OPTIM cfg)) (MOMENTUM (OPTIM cfg)) (DAMPENING (OPTIM cfg))
          (WD (OPTIM cfg)) (NESTEROV (OPTIM cfg)))
  /\ (METHOD (OPTIM cfg) <> "Adam"%string ->
      METHOD (OPTIM cfg) <> "SGD"%string ->
      setup_optimizer cfg ps = Raise NotImplementedError
      /\ forall split gen base s0,
           ADAPTATION (MODEL cfg) = "tent"%string ->
           bootstrap initial = (Ok base, s0) ->
           evaluate cfg split gen initial
           = (Raise NotImplementedError,
              {| trace := [EPrint "==> Loading from checkpoint..";
                           ELog INFO (Text "test-time adaptation: TENT")];
                 model := None |})).
Proof.
  split_and!.
  - intros H. unfold setup_optimizer. by rewrite H.
  - intros H. unfold setup_optimizer. by rewrite H.
  - intros HA HS.
    assert (forall ps', setup_optimizer cfg ps' = Raise NotImplementedError) as Hraise.
    { intros ps'. unfold setup_optimizer.
      apply String.eqb_neq in HA, HS. by rewrite HA, HS. }
    split; [apply Hraise|].
    intros split gen base s0 Hmode Hb.
    rewrite evaluate_steps, Hb.
    rewrite (select_tent_unimplemented cfg base s0 Hmode (Hraise _)).
    apply bootstrap_state in Hb. by subst s0.
Qed.

Lemma sweep_cons cfg split gen (a : Z) (rest : list Z) s :
  sweep cfg split gen (a :: rest) s
  = match sweep_step cfg split gen a s with
    | (Ok _, s') => sweep cfg split gen rest s'
    | (Raise e, s') => (Raise e, s')
    end.
Proof.
  cbn [sweep]. unfold mbind, M_bind, bind.
  by destruct (sweep_step cfg split gen a s) as [[[]|e] s'].
Qed.

(** A turn entered with [model] unbound. *)
Lemma sweep_step_unbound cfg split gen (a : Z) s :
  model s = None ->
  split <> [] ->
  sweep_step cfg split gen a s
  = (Raise (UnboundLocalError "model"),
     {| trace :=
          trace s
          ++ (if EVOLVE (MODEL cfg) then []
              else [ECaught (UnboundLocalError "model");
                    ELog WARNING (Text "not resetting model")])
          ++ [ELoad a None];
        model := None |}).
Proof.
  intros Hm Hne. destruct s as [tr mo]. simpl in Hm. subst mo.
  unfold sweep_step. rewrite load_cifar_r_None by done.
  unfold call_reset, call_accuracy, logger_info, logger_warning,
    mbind, M_bind, bind, mret, M_ret, ret, lift, raise, emit,
    get_model, set_model, try_except.
  destruct (EVOLVE (MODEL cfg)); cbn [negb trace model app];
    by rewrite <- ?app_assoc.
Qed.

(** C10, as amended.  With an adaptation mode outside source, norm and
    tent, a checkpoint that loads and a non-empty split, the run selects
    nothing and fails with the unbound-variable error at the accuracy call
    of angle 0, before any angle is evaluated.  With [EVOLVE] set that call
    is the first use of the model; with [EVOLVE] unset the first use is the
    reset call, whose unbound-variable error is caught and logged as a
    warning before the load and the failing accuracy call. *)
Theorem unknown_mode_fails_at_accuracy cfg split gen base s0 :
  ADAPTATION (MODEL cfg) <> "source"%string ->
  ADAPTATION (MODEL cfg) <> "norm"%string ->
  ADAPTATION (MODEL cfg) <> "tent"%string ->
  bootstrap initial = (Ok base, s0) ->
  split <> [] ->
  evaluate cfg split gen initial
  = (Raise (UnboundLocalError "model"),
     {| trace :=
          [EPrint "==> Loading from checkpoint.."]
          ++ (if EVOLVE (MODEL cfg) then []
              else [ECaught (UnboundLocalError "model");
                    ELog WARNING (Text "not resetting model")])
          ++ [ELoad 0 None];
        model := None |}).
Proof.
  intros H1 H2 H3 Hb Hne.
  rewrite evaluate_steps, Hb, select_unknown by done.
  apply bootstrap_state in Hb. subst s0.
  rewrite range_sweep, sweep_cons, sweep_step_unbound by done.
  done.
Qed.

End DriverClaims.

(** ** The key rewrite *)

Section ReplaceFacts.
Variables old new : string.

Lemma length_str_drop (k : nat) (s : string) :
  String.length (str_drop k s) = String.length s - k.
Proof.
  revert k. induction s as [|c s IH]; intros [|k]; simpl; try done.
Qed.

Lemma prefix_length (p s : string) :
  String.prefix p s = true -> String.length p <= String.length s.
Proof.
  revert s. induction p as [|a p IH]; intros s; [simpl; lia|].
  destruct s as [|b s]; simpl; [done|].
  destruct (ascii_dec a b); [|done].
  intros H. apply IH in H. simpl. lia.
Qed.

Lemma length_append (s t : string) :
  String.length (String.append s t) = String.length s + String.length t.
Proof. induction s as [|c s IH]; simpl; [done|]. by rewrite IH. Qed.

(** Passing over [k] characters first is scanning what is left. *)
Lemma replace_scan_skip (s : string) :
  forall k, replace_scan old new k s = replace_scan old new 0 (str_drop k s).
Proof.
  induction s as [|c s IH]; intros [|k]; try done.
  simpl. apply IH.
Qed.

(** A string without an occurrence is left as it is. *)
Lemma replace_scan_absent (s : string) :
  str_contains old s = false -> replace_scan old new 0 s = s.
Proof.
  induction s as [|c s IH]; [done|].
  cbn [str_contains replace_scan].
  intros H. apply orb_false_iff in H as [Hp Hs].
  rewrite Hp. f_equal. by apply IH.
Qed.

(** When the replacement is shorter than the pattern the result never
    grows, and it shrinks as soon as there is an occurrence. *)
Lemma replace_scan_length (n : nat) :
  String.length new < String.length old ->
  forall s, String.length s <= n ->
    String.length (replace_scan old new 0 s) <= String.length s
    /\ (str_contains old s = true ->
        String.length (replace_scan old new 0 s) < String.length s).
Proof.
  intros Hlen. induction n as [|n IH]; intros s Hs.
  - destruct s; [|simpl in Hs; lia]. simpl. split; [lia|].
    destruct old; simpl in *; [lia | done].
  - destruct s as [|c s]; [apply (IH ""%string); simpl; lia|].
    cbn [replace_scan str_contains].
    destruct (String.prefix old (String c s)) eqn:Hp.
    + apply prefix_length in Hp. simpl in Hp.
      rewrite replace_scan_skip, length_append.
      destruct (IH (str_drop (String.length old - 1) s)) as [Hle _].
      { rewrite length_str_drop. simpl in Hs. lia. }
      rewrite length_str_drop in Hle. simpl. split; [lia|]. intros _. lia.
    + destruct (IH s ltac:(simpl in Hs; lia)) as [Hle Hlt].
      simpl. split; [lia|]. intros H. apply Hlt in H. lia.
Qed.

End ReplaceFacts.

Lemma new_key_absent (key : string) :
  str_contains "module." key = false -> new_key key = key.
Proof. apply replace_scan_absent. Qed.

Lemma new_key_shrinks (key : string) :
  str_contains "module." key = true ->
  String.length (new_key key) < String.length key.
Proof.
  intros H.
  by apply (replace_scan_length "module." "" (String.length key) ltac:(simpl; lia) key).
Qed.

Lemma new_key_fixed_iff (key : string) :
  new_key key = key <-> str_contains "module." key = false.
Proof.
  split; [|apply new_key_absent].
  intros Hfix. destruct (str_contains "module." key) eqn:Hc; [|done].
  apply new_key_shrinks in Hc. rewrite Hfix in Hc. lia.
Qed.

Section DictFacts.
Context {V : Type}.
Implicit Types (d : PyDict.t V) (k : string) (v : V).

Lemma keys_app d1 d2 : PyDict.keys (d1 ++ d2) = PyDict.keys d1 ++ PyDict.keys d2.
Proof. unfold PyDict.keys. apply fmap_app. Qed.

Lemma elem_of_keys_setitem x k v d :
  x ∈ PyDict.keys (PyDict.setitem k v d) <-> x = k \/ x ∈ PyDict.keys d.
Proof.
  induction d as [|[k0 w] d IH]; simpl.
  - rewrite list_elem_of_singleton, elem_of_nil. tauto.
  - destruct (String.eqb_spec k0 k) as [->|Hne]; simpl.
    + rewrite elem_of_cons. tauto.
    + rewrite !elem_of_cons, IH. tauto.
Qed.

Lemma setitem_NoDup k v d :
  NoDup (PyDict.keys d) -> NoDup (PyDict.keys (PyDict.setitem k v d)).
Proof.
  induction d as [|[k0 w] d IH]; simpl; intros Hnd.
  - apply NoDup_singleton.
  - apply NoDup_cons in Hnd as [Hk0 Hnd].
    destruct (String.eqb_spec k0 k) as [->|Hne]; simpl.
    + by apply NoDup_cons.
    + apply NoDup_cons. split; [|by apply IH].
      rewrite elem_of_keys_setitem. intros [->|?]; done.
Qed.

Lemma setitem_fresh k v d :
  k ∉ PyDict.keys d -> PyDict.setitem k v d = d ++ [(k, v)].
Proof.
  induction d as [|[k0 w] d IH]; simpl; intros Hk; [done|].
  apply not_elem_of_cons in Hk as [Hne Hk].
  destruct (String.eqb_spec k0 k) as [->|_]; [done|].
  by rewrite IH.
Qed.

Lemma pop_keys k d v d' :
  PyDict.pop k d = Ok (v, d') ->
  (forall x, x ∈ PyDict.keys d' -> x ∈ PyDict.keys d)
  /\ (NoDup (PyDict.keys d) -> NoDup (PyDict.keys d')).
Proof.
  revert v d'. induction d as [|[k0 w] d IH]; simpl; intros v d'; [done|].
  destruct (String.eqb_spec k0 k) as [->|Hne].
  - intros [= <- <-]. split; [intros x Hx; by apply elem_of_cons; right|].
    intros Hnd. by apply NoDup_cons in Hnd as [_ ?].
  - destruct (PyDict.pop k d) as [[w' d'']|e]; [|done].
    intros [= <- <-]. destruct (IH _ _ eq_refl) as [Hsub Hnd'].
    simpl. split.
    + intros x. rewrite !elem_of_cons. intros [->|Hx]; [by left|].
      right. by apply Hsub.
    + intros Hnd. apply NoDup_cons in Hnd as [Hk0 Hnd].
      apply NoDup_cons. split; [|by apply Hnd'].
      intros Hin. by apply Hk0, Hsub.
Qed.

(** The pass keeps the keys distinct. *)
Lemma rewrite_keys_NoDup (ks : list string) :
  forall d d',
    rewrite_keys ks d = Ok d' ->
    NoDup (PyDict.keys d) -> NoDup (PyDict.keys d').
Proof.
  induction ks as [|k ks IH]; simpl; intros d d'.
  - by intros [= <-].
  - destruct (PyDict.pop k d) as [[v d1]|e] eqn:Hpop; [|done].
    intros Hrest Hnd. eapply IH; [exact Hrest|].
    apply setitem_NoDup. by apply (pop_keys _ _ _ _ Hpop).
Qed.

(** A pass over entries whose keys the rewrite leaves alone moves each of
    them to the end in turn, and so restores the order it started from. *)
Lemma rewrite_keys_fixed (l : PyDict.t V) :
  forall acc : PyDict.t V,
    NoDup (PyDict.keys (l ++ acc)) ->
    Forall (fun k => str_contains "module." k = false) (PyDict.keys l) ->
    rewrite_keys (PyDict.keys l) (l ++ acc) = Ok (acc ++ l).
Proof.
  induction l as [|[k v] l IH]; intros acc Hnd Hfix.
  - simpl. by rewrite app_nil_r.
  - cbn [PyDict.keys fmap list_fmap fst] in *.
    apply Forall_cons in Hfix as [Hk Hfix].
    cbn [app rewrite_keys PyDict.pop]. rewrite String.eqb_refl.
    rewrite (new_key_absent k Hk).
    change (fst <$> ((k, v) :: l) ++ acc) with (k :: PyDict.keys (l ++ acc)) in Hnd.
    apply NoDup_cons in Hnd as [Hfresh Hnd].
    rewrite setitem_fresh by done. rewrite <- app_assoc.
    rewrite IH; [by rewrite <- app_assoc | | done].
    rewrite !keys_app in *. simpl.
    apply NoDup_app in Hnd as (Hl & Hdisj & Hacc).
    rewrite elem_of_app in Hfresh.
    apply NoDup_app. split_and!; [done | | ].
    + intros x Hx. rewrite elem_of_app, list_elem_of_singleton.
      intros [Hin| ->]; [by eapply Hdisj|].
      apply Hfresh. by left.
    + apply NoDup_app. split_and!; [done | | apply NoDup_singleton].
      intros x Hx. rewrite list_elem_of_singleton. intros ->.
      apply Hfresh. by right.
Qed.

End DictFacts.

(** C2, as amended.  Applying the key rewrite twice gives the same string as
    applying it once exactly for the keys whose rewritten form holds no
    occurrence of the prefix text; and a second pass over a checkpoint with
    distinct keys leaves the result of the first pass as it is, entries and
    order, when no rewritten key holds an occurrence any more. *)
Theorem key_rewrite_idempotent_when_no_occurrence_remains :
  (forall key : string,
      new_key (new_key key) = new_key key
      <-> str_contains "module." (new_key key) = false)
  /\ (forall (V : Type) (state_dict once : PyDict.t V),
        NoDup (PyDict.keys state_dict) ->
        strip_module_prefix state_dict = Ok once ->
        Forall (fun k => str_contains "module." k = false) (PyDict.keys once) ->
        strip_module_prefix once = Ok once).
Proof.
  split.
  - intros key. apply new_key_fixed_iff.
  - intros V sd once Hnd Hpass Hfix.
    pose proof (rewrite_keys_NoDup _ _ _ Hpass Hnd) as Hnd1.
    unfold strip_module_prefix.
    pose proof (rewrite_keys_fixed once [] ltac:(by rewrite app_nil_r) Hfix) as H.
    by rewrite app_nil_r in H.
Qed.

(** ** The order of normalization and rotation *)

(** C7, as amended.  Under every reading of the image operations, each
    input the loader returns is the stored image turned into a tensor, then
    normalized with mean 0.1307 and deviation 0.3081, then rotated by the
    angle.  That value is not always different from the one obtained by
    rotating first and normalizing afterwards: for an angle whose rotation
    leaves every tensor as it is, each input is that other value as well. *)
Theorem normalize_then_rotate :
  (forall (ops : ImageOps) (split : list (img * Z)) gen rotation n_examples
          xs ys (i : nat) x,
      load_cifar_r split gen rotation n_examples = Ok (xs, ys) ->
      xs !! i = Some x ->
      exists raw label,
        split !! i = Some (raw, label)
        /\ x = rotate (normalize [0.1307%float] [0.3081%float] (to_tensor raw)) rotation
        /\ ys !! i = Some label)
  /\ (forall (ops : ImageOps) rotation,
        (forall t : img, rotate t rotation = t) ->
        forall (split : list (img * Z)) gen n_examples xs ys (i : nat) x,
          load_cifar_r split gen rotation n_examples = Ok (xs, ys) ->
          xs !! i = Some x ->
          exists raw label,
            split !! i = Some (raw, label)
            /\ x = normalize [0.1307%float] [0.3081%float]
                     (rotate (to_tensor raw) rotation)
            /\ ys !! i = Some label).
Proof.
  split.
  - intros ops. apply @loader_applies_pipeline.
  - intros ops rotation Hid split gen n xs ys i x Hload Hx.
    destruct (loader_applies_pipeline _ _ _ _ _ _ _ _ Hload Hx)
      as (raw & label & Hraw & -> & Hy).
    exists raw, label. by rewrite !Hid.
Qed.

(** C7, as first stated, fails: where rotating by 0 degrees is the identity,
    the inputs loaded at angle 0 are also the images rotated first and
    normalized afterwards. *)
Lemma rotate_then_normalize_agrees_at_zero :
  ~ (forall (ops : ImageOps),
        (forall t : img, rotate t 0 = t) ->
        forall (split : list (img * Z)) gen rotation n_examples xs ys (i : nat) x
               raw label,
          load_cifar_r split gen rotation n_examples = Ok (xs, ys) ->
          xs !! i = Some x ->
          split !! i = Some (raw, label) ->
          x <> normalize [0.1307%float] [0.3081%float]
                 (rotate (to_tensor raw) rotation)).
Proof.
  intros Hnever.
  apply (Hnever ZOps (fun t : Z => ltac:(simpl; lia))
           (toy_split 1) [] 0%Z None [2%Z] [0%Z] 0 2%Z 0%Z 0%Z);
    reflexivity.
Qed.

(** Read as terms, the output shows the order of the three operations. *)
Example loaded_term :
  @load_cifar_r SymOps [(SRaw 0, 7%Z)] [] 30 None
  = Ok ([SRotate (SNormalize [0.1307%float] [0.3081%float] (SToTensor (SRaw 0))) 30%Z],
        [7%Z]).
Proof. reflexivity. Qed.

(** ** Runs on the small framework *)

Lemma toy_accuracy_returns (can_reset : bool) :
  @accuracy_returns ZOps (ToyFramework can_reset).
Proof. intros m x y bs. by eexists _, _. Qed.

(** With shuffling the generator would show in the batches. *)
Example shuffled_loader_depends_on_generator :
  @DataLoader ZOps (@Build_MNIST ZOps (toy_split 2) (fun x => x)) 100 true [1; 0]
  <> @DataLoader ZOps (@Build_MNIST ZOps (toy_split 2) (fun x => x)) 100 true [0; 1].
Proof. vm_compute. discriminate. Qed.

Lemma cap_truncates_gathered_batches_witness :
  exists xs ys xf yf,
    @DataLoader ZOps
      (@Build_MNIST ZOps (toy_split 250) (@Compose ZOps (loader_transform 30)))
      batch_size false []
    = Ok (@collate ZOps <$> batched batch_size (@examples ZOps 30 (toy_split 250)))
    /\ @accumulate ZOps (Some 120%Z) 0
         (@collate ZOps <$> batched batch_size (@examples ZOps 30 (toy_split 250))) [] []
       = (fst <$> take 3 (@collate ZOps <$> batched batch_size
                            (@examples ZOps 30 (toy_split 250))),
          snd <$> take 3 (@collate ZOps <$> batched batch_size
                            (@examples ZOps 30 (toy_split 250))))
    /\ @load_cifar_r ZOps (toy_split 250) [] 30 (Some 120%Z) = Ok (xs, ys)
    /\ @load_cifar_r ZOps (toy_split 250) [] 30 None = Ok (xf, yf)
    /\ xs = slice_to 120 (fst <$> @gathered ZOps 30 (Some 120%Z) (toy_split 250))
    /\ ys = slice_to 120 (snd <$> @gathered ZOps 30 (Some 120%Z) (toy_split 250))
    /\ length (@gathered ZOps 30 (Some 120%Z) (toy_split 250))
       = Nat.min (length (toy_split 250)) (100 * (Z.to_nat ((120 + 99) / 100) + 1))
    /\ length xs = Z.to_nat 120
    /\ length ys = Z.to_nat 120
    /\ xs = take (Z.to_nat 120) xf
    /\ ys = take (Z.to_nat 120) yf.
Proof.
  apply (@cap_truncates_gathered_batches ZOps (toy_split 250) [] 30 120%Z).
  - reflexivity.
  - vm_compute. discriminate.
Defined.

Lemma normalize_then_rotate_witness :
  (exists raw label,
      toy_split 3 !! 1 = Some (raw, label)
      /\ 30004%Z = @rotate ZOps (@normalize ZOps [0.1307%float] [0.3081%float]
                                   (@to_tensor ZOps raw)) 30%Z
      /\ [0; 1; 2]%Z !! 1 = Some label)
  /\ (exists raw label,
        toy_split 3 !! 1 = Some (raw, label)
        /\ 4%Z = @normalize ZOps [0.1307%float] [0.3081%float]
                   (@rotate ZOps (@to_tensor ZOps raw) 0%Z)
        /\ [0; 1; 2]%Z !! 1 = Some label).
Proof.
  split.
  - apply (proj1 normalize_then_rotate ZOps (toy_split 3) [] 30%Z None
             [30002; 30004; 30006]%Z [0; 1; 2]%Z 1 30004%Z).
    + reflexivity.
    + reflexivity.
  - apply (proj2 normalize_then_rotate ZOps 0%Z (fun t : Z => ltac:(simpl; lia))
             (toy_split 3) [] None [2; 4; 6]%Z [0; 1; 2]%Z 1 4%Z).
    + reflexivity.
    + reflexivity.
Defined.

Lemma loader_is_deterministic_witness :
  @load_cifar_r ZOps (toy_split 3) [2; 0; 1] 30 (Some 2%Z)
  = @load_cifar_r ZOps (toy_split 3) [] 30 (Some 2%Z)
  /\ exists k,
       @load_cifar_r ZOps (toy_split 3) [2; 0; 1] 30 (Some 2%Z)
       = Ok (take k (fst <$> @examples ZOps 30 (toy_split 3)),
             take k (snd <$> @examples ZOps 30 (toy_split 3))).
Proof.
  destruct (@loader_is_deterministic ZOps (toy_split 3) 30 (Some 2%Z) [2; 0; 1] [])
    as [Hsame Hprefix].
  split; [exact Hsame|]. apply Hprefix. discriminate.
Defined.

Lemma inputs_and_labels_same_length_witness :
  exists xs ys,
    @load_cifar_r ZOps (toy_split 250) [] 30 (Some 120%Z) = Ok (xs, ys)
    /\ length xs = length ys
    /\ length (fst <$> @gathered ZOps 30 (Some 120%Z) (toy_split 250))
       = length (snd <$> @gathered ZOps 30 (Some 120%Z) (toy_split 250))
    /\ xs = cut (Some 120%Z) (fst <$> @gathered ZOps 30 (Some 120%Z) (toy_split 250))
    /\ ys = cut (Some 120%Z) (snd <$> @gathered ZOps 30 (Some 120%Z) (toy_split 250))
    /\ exists k, xs = take k (fst <$> @gathered ZOps 30 (Some 120%Z) (toy_split 250))
                 /\ ys = take k (snd <$> @gathered ZOps 30 (Some 120%Z) (toy_split 250)).
Proof.
  apply (@inputs_and_labels_same_length ZOps (toy_split 250) [] 30 (Some 120%Z)).
  discriminate.
Defined.

Lemma one_evaluation_per_angle_witness :
  exists s' ts,
    @evaluate ZOps (ToyFramework true) (toy_cfg "tent" false "Adam") (toy_split 2) []
      initial = (Ok tt, s')
    /\ t_angle <$> ts = [0; 10; 20; 30; 40; 50; 60; 70; 80; 90; 100; 110; 120;
                         130; 140; 150; 160; 170; 180]%Z
    /\ length ts = 19
    /\ view is_evaluation_event (trace s')
       = concat ((fun t =>
                    [ELoad (t_angle t) None;
                     EAccuracy (t_used t)
                       (fst <$> @examples ZOps (t_angle t) (toy_split 2))
                       (snd <$> @examples ZOps (t_angle t) (toy_split 2))
                       (BATCH_SIZE (TEST (toy_cfg "tent" false "Adam")))
                       (Ok (t_acc t, t_after t));
                     ELog INFO (ErrorPct (t_angle t) (1 - t_acc t)%float)]) <$> ts)
    /\ Forall (fun t =>
                 @load_cifar_r ZOps (toy_split 2) [] (t_angle t) None
                 = Ok (fst <$> @examples ZOps (t_angle t) (toy_split 2),
                       snd <$> @examples ZOps (t_angle t) (toy_split 2))
                 /\ @accuracy ZOps (ToyFramework true) (t_used t)
                      (fst <$> @examples ZOps (t_angle t) (toy_split 2))
                      (snd <$> @examples ZOps (t_angle t) (toy_split 2))
                      (BATCH_SIZE (TEST (toy_cfg "tent" false "Adam")))
                    = Ok (t_acc t, t_after t)) ts.
Proof.
  eapply (@one_evaluation_per_angle ZOps (ToyFramework true)
            (toy_cfg "tent" false "Adam") (toy_split 2) []).
  - reflexivity.
  - reflexivity.
  - reflexivity.
  - discriminate.
  - apply toy_accuracy_returns.
Defined.

Lemma reset_attempted_iff_not_evolving_witness :
  view is_reset
    (trace (@evaluate ZOps (ToyFramework true) (toy_cfg "norm" true "Adam")
              (toy_split 2) [] initial).2) = []
  /\ exists s' ts,
       @evaluate ZOps (ToyFramework true) (toy_cfg "norm" false "Adam") (toy_split 2) []
         initial = (Ok tt, s')
       /\ length ts = 19
       /\ @chained ZOps (ToyFramework true) 0%nat ts
       /\ view is_reset_or_accuracy (trace s')
          = concat ((fun t =>
                       [EReset (t_before t)
                          (@reset ZOps (ToyFramework true) (t_before t)).1
                          (@reset ZOps (ToyFramework true) (t_before t)).2]
                       ++ [EAccuracy (@reset ZOps (ToyFramework true) (t_before t)).1
                             (fst <$> @examples ZOps (t_angle t) (toy_split 2))
                             (snd <$> @examples ZOps (t_angle t) (toy_split 2))
                             200%Z (Ok (t_acc t, t_after t))]) <$> ts).
Proof.
  split.
  - apply (proj1 (@reset_attempted_iff_not_evolving ZOps (ToyFramework true)
                    (toy_cfg "norm" true "Adam") (toy_split 2) [])).
    reflexivity.
  - eapply (proj2 (@reset_attempted_iff_not_evolving ZOps (ToyFramework true)
                     (toy_cfg "norm" false "Adam") (toy_split 2) [])).
    + reflexivity.
    + reflexivity.
    + reflexivity.
    + discriminate.
    + apply toy_accuracy_returns.
Defined.

Lemma failed_reset_is_not_fatal_witness :
  exists s' ts,
    @evaluate ZOps (ToyFramework false) (toy_cfg "source" false "Adam") (toy_split 2) []
      initial = (Ok tt, s')
    /\ length ts = 19
    /\ @chained ZOps (ToyFramework false) 0%nat ts
    /\ trace s'
       = [EPrint "==> Loading from checkpoint..";
          ELog INFO (Text "test-time adaptation: NONE");
          ELog INFO (Fmt "model for evaluation: %s")]
         ++ concat (@turn_events ZOps (ToyFramework false)
                      (toy_cfg "source" false "Adam") (toy_split 2) <$> ts)
    /\ Forall (fun t =>
          forall after e,
            @reset ZOps (ToyFramework false) (t_before t) = (after, Raise e) ->
            @turn_events ZOps (ToyFramework false)
              (toy_cfg "source" false "Adam") (toy_split 2) t
            = [EReset (t_before t) after (Raise e);
               ECaught e;
               ELog WARNING (Text "not resetting model");
               ELoad (t_angle t) None;
               EAccuracy after
                 (fst <$> @examples ZOps (t_angle t) (toy_split 2))
                 (snd <$> @examples ZOps (t_angle t) (toy_split 2))
                 200%Z (Ok (t_acc t, t_after t));
               ELog INFO (ErrorPct (t_angle t) (1 - t_acc t)%float)]) ts.
Proof.
  eapply (@failed_reset_is_not_fatal ZOps (ToyFramework false)
            (toy_cfg "source" false "Adam") (toy_split 2) [] 0%nat
            (@Build_state ZOps (ToyFramework false)
               [EPrint "==> Loading from checkpoint.."] None)
            (@Build_state ZOps (ToyFramework false)
               [EPrint "==> Loading from checkpoint..";
                ELog INFO (Text "test-time adaptation: NONE");
                ELog INFO (Fmt "model for evaluation: %s")]
               (Some 0%nat))
            0%nat).
  - reflexivity.
  - reflexivity.
  - reflexivity.
  - discriminate.
  - apply toy_accuracy_returns.
  - reflexivity.
Defined.

(** On the framework without reset every turn of that run is of this kind:
    the whole trace, with the model state counting up from turn to turn. *)
Example unsupported_reset_run :
  (fun r => (r.1, take 13 (trace r.2), model r.2))
    (@evaluate ZOps (ToyFramework false) (toy_cfg "source" false "Adam") (toy_split 2) []
       initial)
  = (Ok tt,
     [@EPrint ZOps (ToyFramework false) "==> Loading from checkpoint..";
      ELog INFO (Text "test-time adaptation: NONE");
      ELog INFO (Fmt "model for evaluation: %s");
      @EReset ZOps (ToyFramework false) 0%nat 0%nat (Raise (AttributeError "reset"));
      ECaught (AttributeError "reset");
      ELog WARNING (Text "not resetting model");
      ELoad 0 None;
      @EAccuracy ZOps (ToyFramework false) 0%nat [2; 4]%Z [0; 1]%Z 200%Z (Ok (0.75%float, 1%nat));
      ELog INFO (ErrorPct 0 0.25%float);
      @EReset ZOps (ToyFramework false) 1%nat 1%nat (Raise (AttributeError "reset"));
      ECaught (AttributeError "reset");
      ELog WARNING (Text "not resetting model");
      ELoad 10 None],
     @Some (@module ZOps (ToyFramework false)) 19%nat).
Proof. reflexivity. Qed.

Lemma setup_optimizer_by_method_witness :
  @setup_optimizer ZOps (ToyFramework true) (toy_cfg "tent" true "Adam") tt
  = Ok (ToyAdam 0.001%float (0.9%float, 0.999%float) 0%float)
  /\ @setup_optimizer ZOps (ToyFramework true) (toy_cfg "tent" true "SGD") tt
     = Ok (ToySGD 0.001%float 0.9%float 0%float 0%float true)
  /\ @setup_optimizer ZOps (ToyFramework true) (toy_cfg "tent" true "RMSprop") tt
     = Raise NotImplementedError
  /\ @evaluate ZOps (ToyFramework true) (toy_cfg "tent" true "RMSprop") (toy_split 2) []
       initial
     = (Raise NotImplementedError,
        {| trace := [EPrint "==> Loading from checkpoint..";
                     ELog INFO (Text "test-time adaptation: TENT")];
           model := None |}).
Proof.
  split_and!.
  - apply (proj1 (@setup_optimizer_by_method ZOps (ToyFramework true)
                    (toy_cfg "tent" true "Adam") tt)).
    reflexivity.
  - apply (proj1 (proj2 (@setup_optimizer_by_method ZOps (ToyFramework true)
                           (toy_cfg "tent" true "SGD") tt))).
    reflexivity.
  - apply (proj2 (proj2 (@setup_optimizer_by_method ZOps (ToyFramework true)
                           (toy_cfg "tent" true "RMSprop") tt)));
      discriminate.
  - eapply (proj2 (proj2 (@setup_optimizer_by_method ZOps (ToyFramework true)
                            (toy_cfg "tent" true "RMSprop") tt))).
    + discriminate.
    + discriminate.
    + reflexivity.
    + reflexivity.
Defined.

Lemma unknown_mode_fails_at_accuracy_witness :
  @evaluate ZOps (ToyFramework true) (toy_cfg "bogus" false "Adam") (toy_split 2) []
    initial
  = (Raise (UnboundLocalError "model"),
     {| trace := [EPrint "==> Loading from checkpoint.."]
                 ++ [ECaught (UnboundLocalError "model");
                     ELog WARNING (Text "not resetting model")]
                 ++ [ELoad 0 None];
        model := None |}).
Proof.
  eapply (@unknown_mode_fails_at_accuracy ZOps (ToyFramework true)
            (toy_cfg "bogus" false "Adam") (toy_split 2) []).
  - discriminate.
  - discriminate.
  - discriminate.
  - reflexivity.
  - discriminate.
Defined.

(** C10, as first stated, fails: with [EVOLVE] unset the first use of the
    unbound model is the reset call, and the error it raises is caught; the
    run logs the warning and loads angle 0 before it fails. *)
Lemma unbound_model_error_is_caught_at_first_use :
  ~ ((@evaluate ZOps (ToyFramework true) (toy_cfg "bogus" false "Adam") (toy_split 2) []
        initial).1 = Raise (UnboundLocalError "model")
     /\ forall e,
          ECaught e ∉ trace (@evaluate ZOps (ToyFramework true)
                               (toy_cfg "bogus" false "Adam") (toy_split 2) []
                               initial).2)
  /\ trace (@evaluate ZOps (ToyFramework true) (toy_cfg "bogus" false "Adam")
              (toy_split 2) [] initial).2
     = [EPrint "==> Loading from checkpoint..";
        ECaught (UnboundLocalError "model");
        ELog WARNING (Text "not resetting model");
        ELoad 0 None].
Proof.
  split; [|reflexivity].
  intros [_ Hnone]. apply (Hnone (UnboundLocalError "model")).
  vm_compute. apply elem_of_cons. right. apply elem_of_cons. by left.
Qed.

Lemma key_rewrite_idempotent_when_no_occurrence_remains_witness :
  new_key (new_key "module.conv1.weight") = new_key "module.conv1.weight"
  /\ strip_module_prefix [("conv1.weight"%string, 1%Z); ("fc.bias"%string, 2%Z)]
     = Ok [("conv1.weight"%string, 1%Z); ("fc.bias"%string, 2%Z)].
Proof.
  split.
  - apply (proj1 key_rewrite_idempotent_when_no_occurrence_remains
             "module.conv1.weight"%string).
    reflexivity.
  - apply (proj2 key_rewrite_idempotent_when_no_occurrence_remains Z
             [("module.conv1.weight"%string, 1%Z); ("module.fc.bias"%string, 2%Z)]).
    + apply NoDup_cons. split; [|apply NoDup_singleton].
      intros H. apply list_elem_of_singleton in H. discriminate.
    + reflexivity.
    + repeat constructor.
Defined.

(** C2, as first stated, fails: removing an occurrence can join the
    characters around it into a new one. *)
Lemma key_rewrite_twice_differs :
  new_key (new_key "mmodule.odule.w") <> new_key "mmodule.odule.w"
  /\ new_key "mmodule.odule.w" = "module.w"%string
  /\ new_key "module.w" = "w"%string
  /\ strip_module_prefix [("mmodule.odule.w"%string, 1%Z)] = Ok [("module.w"%string, 1%Z)]
  /\ strip_module_prefix [("module.w"%string, 1%Z)] = Ok [("w"%string, 1%Z)].
Proof. split_and!; [vm_compute; discriminate | reflexivity..]. Qed.

(** * More about the loader *)

Section LoaderMore.
Context {ops : ImageOps}.
Implicit Types (split : list (img * Z)) (gen : list nat) (rotation : Z)
  (n_examples : option Z).

Lemma take_min_length {A : Type} (l : list A) (n : nat) :
  take (Nat.min n (length l)) l = take n l.
Proof.
  destruct (decide (n <= length l)).
  - by rewrite Nat.min_l.
  - rewrite Nat.min_r by lia. by rewrite !take_ge by lia.
Qed.

(** How many examples a call returns of a split of [len]. *)
Lemma cut_gathered_count n_examples rotation split :
  cut_length n_examples (length (gathered rotation n_examples split))
  `min` length (gathered rotation n_examples split)
  = match n_examples with
    | None => length split
    | Some m =>
        if (0 <=? m)%Z then Nat.min (Z.to_nat m) (length split)
        else Nat.min 100 (length split) - Z.to_nat (- m)
    end.
Proof.
  destruct n_examples as [m|].
  - rewrite length_gathered_Some. cbn [cut_length].
    destruct (0 <=? m)%Z eqn:Hm.
    + apply Z.leb_le in Hm.
      pose proof (Z.div_mod (m + 99) 100 ltac:(lia)) as Hdm.
      pose proof (Z.mod_pos_bound (m + 99) 100 ltac:(lia)) as Hmod.
      assert (0 <= (m + 99) / 100)%Z by (apply Z.div_pos; lia).
      lia.
    + apply Z.leb_gt in Hm.
      assert ((m + 99) / 100 <= 0)%Z as Hc.
      { pose proof (Z.div_mod (m + 99) 100 ltac:(lia)) as Hdm.
        pose proof (Z.mod_pos_bound (m + 99) 100 ltac:(lia)) as Hmod.
        lia. }
      replace (Z.to_nat ((m + 99) / 100)) with 0 by lia. lia.
  - rewrite gathered_None, length_examples. simpl. lia.
Qed.

(** Every call on a non-empty split returns a prefix of the examples, of a
    length that depends on the cap and the size of the split only. *)
Lemma load_cifar_r_count split gen rotation n_examples :
  split <> [] ->
  let count :=
    match n_examples with
    | None => length split
    | Some m =>
        if (0 <=? m)%Z then Nat.min (Z.to_nat m) (length split)
        else Nat.min 100 (length split) - Z.to_nat (- m)
    end in
  load_cifar_r split gen rotation n_examples
  = Ok (take count (fst <$> examples rotation split),
        take count (snd <$> examples rotation split)).
Proof.
  intros Hne count. rewrite load_cifar_r_spec by done.
  rewrite !cut_take, !length_fmap.
  pose proof (cut_gathered_count n_examples rotation split) as Hcount.
  fold count in Hcount.
  assert (forall (B : Type) (f : img * Z -> B),
            take (cut_length n_examples (length (gathered rotation n_examples split)))
              (f <$> gathered rotation n_examples split)
            = take count (f <$> examples rotation split)) as Hcut.
  { intros B f.
    rewrite <- take_min_length, length_fmap, Hcount.
    assert (count <= length (gathered rotation n_examples split)) as Hle by lia.
    unfold gathered in *. rewrite <- !fmap_take, take_take. f_equal. f_equal.
    rewrite length_take in Hle. lia. }
  by rewrite !Hcut.
Qed.

End LoaderMore.

Section LoaderExtras.
Context {ops : ImageOps}.
Implicit Types (split : list (img * Z)) (gen : list nat) (rotation : Z)
  (n_examples : option Z).

(** X2.  Without a cap the loader returns the whole split in stored order:
    every image converted, normalized and rotated, every label as stored. *)
Theorem uncapped_load_is_whole_split split gen rotation :
  split <> [] ->
  load_cifar_r split gen rotation None
  = Ok ((fun e => rotate (normalize [0.1307%float] [0.3081%float] (to_tensor (fst e)))
                    rotation) <$> split,
        snd <$> split).
Proof.
  intros Hne. rewrite load_cifar_r_None by done.
  rewrite examples_pipeline, <- !list_fmap_compose. done.
Qed.

(** X3.  For every cap the result is a prefix of what the uncapped call
    returns, the same prefix of inputs and of labels.  Its length is the cap
    when that lies between zero and the size of the split, the size of the
    split for a larger cap, and for a negative cap [m] the size of the first
    batch less [-m] (nothing when that is below zero). *)
Theorem capped_load_is_prefix_of_uncapped split gen rotation n_examples :
  split <> [] ->
  let count :=
    match n_examples with
    | None => length split
    | Some m =>
        if (0 <=? m)%Z then Nat.min (Z.to_nat m) (length split)
        else Nat.min 100 (length split) - Z.to_nat (- m)
    end in
  exists xf yf,
    load_cifar_r split gen rotation None = Ok (xf, yf)
    /\ load_cifar_r split gen rotation n_examples = Ok (take count xf, take count yf)
    /\ length (take count xf) = count
    /\ length (take count yf) = count.
Proof.
  intros Hne count.
  exists (fst <$> examples rotation split), (snd <$> examples rotation split).
  split; [by apply load_cifar_r_None|].
  split; [by apply load_cifar_r_count|].
  rewrite !length_take, !length_fmap, length_examples.
  assert (count <= length split); [|lia].
  unfold count. destruct n_examples as [m|]; [|lia].
  destruct (0 <=? m)%Z; lia.
Qed.

(** X4.  Caps compose: for [0 <= m1 <= m2] the result under the cap [m1] is
    the first [m1] inputs and labels of the result under the cap [m2]. *)
Theorem smaller_cap_is_prefix_of_larger split gen rotation (m1 m2 : Z) :
  split <> [] ->
  (0 <= m1)%Z ->
  (m1 <= m2)%Z ->
  exists xs2 ys2,
    load_cifar_r split gen rotation (Some m2) = Ok (xs2, ys2)
    /\ load_cifar_r split gen rotation (Some m1)
       = Ok (take (Z.to_nat m1) xs2, take (Z.to_nat m1) ys2).
Proof.
  intros Hne H1 H12. do 2 eexists.
  rewrite !load_cifar_r_count by done.
  split; [reflexivity|].
  replace (0 <=? m1)%Z with true by (symmetry; apply Z.leb_le; lia).
  replace (0 <=? m2)%Z with true by (symmetry; apply Z.leb_le; lia).
  rewrite !take_take.
  rewrite <- (take_min_length (fst <$> _) (_ `min` _)).
  rewrite <- (take_min_length (snd <$> _) (_ `min` _)).
  rewrite !length_fmap, !length_examples.
  do 2 f_equal; f_equal; lia.
Qed.

(** X5.  The angle enters only through the final rotation: for a given
    split and cap there are one sequence of normalized tensors and one
    sequence of labels such that, for every angle, the loader returns those
    tensors rotated by the angle together with those labels. *)
Theorem angle_only_rotates split gen n_examples :
  split <> [] ->
  exists (base : list img) (labels : list Z),
    forall rotation,
      load_cifar_r split gen rotation n_examples
      = Ok ((fun t => rotate t rotation) <$> base, labels).
Proof.
  intros Hne.
  set (count :=
         match n_examples with
         | None => length split
         | Some m =>
             if (0 <=? m)%Z then Nat.min (Z.to_nat m) (length split)
             else Nat.min 100 (length split) - Z.to_nat (- m)
         end).
  exists (take count ((fun e => normalize [0.1307%float] [0.3081%float]
                                   (to_tensor (fst e))) <$> split)),
         (take count (snd <$> split)).
  intros rotation.
  rewrite (load_cifar_r_count split gen rotation n_examples Hne). fold count.
  rewrite examples_pipeline, <- !fmap_take, <- !list_fmap_compose. done.
Qed.

End LoaderExtras.

(** * More about the key rewrite *)

Lemma prefix_append (p s : string) : String.prefix p (String.append p s) = true.
Proof.
  induction p as [|a p IH]; simpl; [by destruct s|].
  by destruct (ascii_dec a a).
Qed.

Lemma new_key_prefixed (key : string) :
  new_key (String.append "module." key) = new_key key.
Proof.
  unfold new_key, str_replace.
  change (String.append "module." key) with (String "m" (String.append "odule." key)).
  cbn [replace_scan].
  change (String "m" (String.append "odule." key)) with (String.append "module." key).
  rewrite prefix_append. simpl String.length. simpl Nat.sub.
  rewrite replace_scan_skip. reflexivity.
Qed.

Lemma contains_prefixed (key : string) :
  str_contains "module." (String.append "module." key) = true.
Proof.
  change (String.append "module." key) with (String "m" (String.append "odule." key)).
  cbn [str_contains].
  change (String "m" (String.append "odule." key)) with (String.append "module." key).
  by rewrite prefix_append.
Qed.

Section DictMore.
Context {V : Type}.
Implicit Types (d : PyDict.t V) (k : string) (v : V).

Lemma pop_present k d :
  k ∈ PyDict.keys d -> exists v d', PyDict.pop k d = Ok (v, d').
Proof.
  induction d as [|[k0 w] d IH]; simpl; [by intros ?%elem_of_nil|].
  destruct (String.eqb_spec k0 k) as [->|Hne]; [eauto|].
  intros [->|Hin]%elem_of_cons; [done|].
  destruct (IH Hin) as (v & d' & ->). eauto.
Qed.

Lemma pop_shape k d v d' :
  PyDict.pop k d = Ok (v, d') ->
  length d = S (length d')
  /\ v ∈ (snd <$> d)
  /\ (forall w, w ∈ (snd <$> d') -> w ∈ (snd <$> d))
  /\ (forall x, x ∈ PyDict.keys d -> x <> k -> x ∈ PyDict.keys d')
  /\ (NoDup (PyDict.keys d) -> k ∉ PyDict.keys d').
Proof.
  revert v d'. induction d as [|[k0 w] d IH]; simpl; intros v d'; [done|].
  destruct (String.eqb_spec k0 k) as [->|Hne].
  - intros [= <- <-]. split_and!; [done | apply elem_of_cons; by left | | | ].
    + intros w' Hw. apply elem_of_cons. by right.
    + intros x [->|Hx]%elem_of_cons Hxk; done.
    + by intros [Hk _]%NoDup_cons.
  - destruct (PyDict.pop k d) as [[w' d'']|e]; [|done].
    intros [= <- <-]. destruct (IH _ _ eq_refl) as (Hlen & Hv & Hvals & Hkeys & Hgone).
    simpl. split_and!.
    + by rewrite Hlen.
    + apply elem_of_cons. by right.
    + intros x [->|Hx]%elem_of_cons; apply elem_of_cons; [by left|right; by apply Hvals].
    + intros x [->|Hx]%elem_of_cons Hxk; apply elem_of_cons; [by left|].
      right. by apply Hkeys.
    + intros [Hk0 Hnd]%NoDup_cons [Heq|Hin]%elem_of_cons; [done|].
      by apply Hgone.
Qed.

Lemma setitem_shape k v d :
  length (PyDict.setitem k v d) <= S (length d)
  /\ (forall w, w ∈ (snd <$> PyDict.setitem k v d) -> w = v \/ w ∈ (snd <$> d)).
Proof.
  induction d as [|[k0 w] d [IHlen IHval]]; simpl.
  - split; [lia|]. intros w' ?%list_elem_of_singleton. by left.
  - destruct (String.eqb_spec k0 k) as [->|Hne]; simpl.
    + split; [lia|]. intros w' [->|Hw]%elem_of_cons; [by left|].
      right. apply elem_of_cons. by right.
    + split; [lia|]. intros w' [->|Hw]%elem_of_cons.
      * right. apply elem_of_cons. by left.
      * destruct (IHval _ Hw) as [->|?]; [by left|].
        right. apply elem_of_cons. by right.
Qed.

(** The loop finds every key it comes to, and what it builds is made of the
    entries it started from. *)
Lemma rewrite_keys_runs (ks : list string) :
  forall d,
    NoDup ks ->
    NoDup (PyDict.keys d) ->
    (forall x, x ∈ ks -> x ∈ PyDict.keys d) ->
    exists d',
      rewrite_keys ks d = Ok d'
      /\ length d' <= length d
      /\ NoDup (PyDict.keys d')
      /\ (forall x, x ∈ PyDict.keys d' ->
            (exists k, k ∈ ks /\ x = new_key k) \/ (x ∈ PyDict.keys d /\ x ∉ ks))
      /\ (forall w, w ∈ (snd <$> d') -> w ∈ (snd <$> d)).
Proof.
  induction ks as [|k ks IH]; intros d Hks Hd Hsub.
  - exists d. simpl. split_and!; try done.
    intros x Hx. right. split; [done|]. apply not_elem_of_nil.
  - apply NoDup_cons in Hks as [Hk Hks].
    destruct (pop_present k d) as (v & d0 & Hpop); [apply Hsub; by left|].
    destruct (pop_shape _ _ _ _ Hpop) as (Hlen & Hv & Hvals & Hkeys & Hgone).
    destruct (IH (PyDict.setitem (new_key k) v d0)) as (d' & Hrun & Hlen' & Hnd' & Hk' & Hv').
    + done.
    + apply setitem_NoDup. by apply (pop_keys _ _ _ _ Hpop).
    + intros x Hx. apply elem_of_keys_setitem. right.
      apply Hkeys; [apply Hsub; by right|]. by intros ->.
    + exists d'. cbn [rewrite_keys]. rewrite Hpop.
      destruct (setitem_shape (new_key k) v d0) as [Hslen Hsval].
      split_and!; [done | lia | done | | ].
      * intros x Hx. destruct (Hk' x Hx) as [(k1 & Hk1 & ->)|[Hin Hnot]].
        { left. exists k1. split; [by right|done]. }
        apply elem_of_keys_setitem in Hin as [->|Hin].
        { left. exists k. split; [by left|done]. }
        right. split; [by apply (pop_keys _ _ _ _ Hpop)|].
        intros [->|?]%elem_of_cons; [|done]. by apply Hgone.
      * intros w Hw. destruct (Hsval _ (Hv' _ Hw)) as [->|?]; [done|by apply Hvals].
Qed.

(** Renamed entry by entry. *)
Lemma rewrite_keys_renames (l : PyDict.t V) :
  forall acc : PyDict.t V,
    NoDup (new_key <$> PyDict.keys l) ->
    (forall k k', k ∈ PyDict.keys l -> k' ∈ PyDict.keys l -> k <> k' -> new_key k <> k') ->
    (forall k, k ∈ PyDict.keys l -> new_key k ∉ PyDict.keys acc) ->
    rewrite_keys (PyDict.keys l) (l ++ acc)
    = Ok (acc ++ ((fun e => (new_key (fst e), snd e)) <$> l)).
Proof.
  induction l as [|[k v] l IH]; intros acc Hnd Hcol Hacc.
  - simpl. by rewrite app_nil_r.
  - change (PyDict.keys ((k, v) :: l)) with (k :: PyDict.keys l) in *.
    rewrite fmap_cons in Hnd. apply NoDup_cons in Hnd as [Hfresh Hnd].
    assert (k ∉ PyDict.keys l) as Hk.
    { intros Hin. apply Hfresh. by apply list_elem_of_fmap_2. }
    cbn [app rewrite_keys PyDict.pop]. rewrite String.eqb_refl.
    rewrite setitem_fresh.
    + rewrite <- app_assoc. rewrite IH.
      * rewrite <- app_assoc. done.
      * done.
      * intros k1 k2 H1 H2. apply Hcol; by right.
      * intros k1 H1. rewrite keys_app, elem_of_app.
        intros [Hin|Hin%list_elem_of_singleton].
        { eapply Hacc; [by right|done]. }
        simpl in Hin. apply Hfresh. rewrite <- Hin. by apply list_elem_of_fmap_2.
    + rewrite keys_app, elem_of_app. intros [Hin|Hin].
      * apply (Hcol k (new_key k)); [by left | by right | | done].
        intros Heq. apply Hk. by rewrite Heq.
      * eapply Hacc; [by left|done].
Qed.

End DictMore.

Section KeyRewriteExtras.
Context {V : Type}.
Implicit Types (state_dict once : PyDict.t V).

(** X6.  On a dictionary (its keys distinct) the rewriting pass never raises:
    every key of the list taken before the loop is still there when the loop
    comes to pop it. *)
Theorem strip_module_prefix_returns state_dict :
  NoDup (PyDict.keys state_dict) ->
  exists once, strip_module_prefix state_dict = Ok once.
Proof.
  intros Hnd.
  destruct (rewrite_keys_runs (PyDict.keys state_dict) state_dict Hnd Hnd
              ltac:(done)) as (once & Hrun & _).
  by exists once.
Qed.

(** X7.  The pass never adds an entry: the result has at most as many
    entries as the input, its keys are distinct, each of them is the rewrite
    of a key of the input, and each of its values is a value of the input. *)
Theorem strip_module_prefix_keeps_shape state_dict once :
  NoDup (PyDict.keys state_dict) ->
  strip_module_prefix state_dict = Ok once ->
  length once <= length state_dict
  /\ NoDup (PyDict.keys once)
  /\ (forall x, x ∈ PyDict.keys once ->
        exists k, k ∈ PyDict.keys state_dict /\ x = new_key k)
  /\ (forall w, w ∈ (snd <$> once) -> w ∈ (snd <$> state_dict)).
Proof.
  intros Hnd Hpass.
  destruct (rewrite_keys_runs (PyDict.keys state_dict) state_dict Hnd Hnd
              ltac:(done)) as (d' & Hrun & Hlen & Hnd' & Hkeys & Hvals).
  unfold strip_module_prefix in Hpass. rewrite Hrun in Hpass.
  injection Hpass as <-. split_and!; try done.
  intros x Hx. by destruct (Hkeys x Hx) as [?|[? ?]].
Qed.

Lemma strip_renames state_dict :
  NoDup (new_key <$> PyDict.keys state_dict) ->
  (forall k k',
      k ∈ PyDict.keys state_dict -> k' ∈ PyDict.keys state_dict ->
      k <> k' -> new_key k <> k') ->
  strip_module_prefix state_dict
  = Ok ((fun e => (new_key (fst e), snd e)) <$> state_dict).
Proof.
  intros Hnd Hcol. unfold strip_module_prefix.
  pose proof (rewrite_keys_renames state_dict [] Hnd Hcol) as H.
  rewrite app_nil_r in H. apply H. intros k _. apply not_elem_of_nil.
Qed.

(** X8.  When the rewritten keys are pairwise distinct and none of them is
    another key of the input, the pass renames entry by entry: the result
    holds the same values in the same order, each under its rewritten key. *)
Theorem strip_module_prefix_renames_in_order state_dict :
  NoDup (new_key <$> PyDict.keys state_dict) ->
  (forall k k',
      k ∈ PyDict.keys state_dict -> k' ∈ PyDict.keys state_dict ->
      k <> k' -> new_key k <> k') ->
  strip_module_prefix state_dict
  = Ok ((fun e => (new_key (fst e), snd e)) <$> state_dict).
Proof.
  intros Hnd Hcol. unfold strip_module_prefix.
  pose proof (rewrite_keys_renames state_dict [] Hnd Hcol) as H.
  rewrite app_nil_r in H. apply H. intros k _. apply not_elem_of_nil.
Qed.

(** X9.  Unwrapping undoes wrapping: when the parameter names are distinct
    and none holds the prefix text, the pass over the checkpoint that has
    the prefix put before every name gives back the entries under their
    plain names, values and order kept. *)
Theorem wrapped_checkpoint_unwraps (plain : PyDict.t V) :
  NoDup (PyDict.keys plain) ->
  Forall (fun k => str_contains "module." k = false) (PyDict.keys plain) ->
  strip_module_prefix ((fun e => (String.append "module." (fst e), snd e)) <$> plain)
  = Ok plain.
Proof.
  intros Hnd Hfree.
  set (wrapped := (fun e => (String.append "module." (fst e), snd e)) <$> plain).
  assert (PyDict.keys wrapped = String.append "module." <$> PyDict.keys plain) as Hkeys.
  { unfold wrapped, PyDict.keys. by rewrite <- !list_fmap_compose. }
  assert (forall k, k ∈ PyDict.keys plain -> new_key (String.append "module." k) = k)
    as Hback.
  { intros k Hk. rewrite new_key_prefixed. apply new_key_absent.
    by eapply Forall_forall in Hfree. }
  rewrite strip_renames.
  - f_equal. unfold wrapped. rewrite <- list_fmap_compose.
    rewrite <- (list_fmap_id plain) at 2. apply list_fmap_ext.
    intros i [k v] Hi. simpl. f_equal. apply Hback.
    apply list_elem_of_fmap. exists (k, v). split; [done|].
    by eapply list_elem_of_lookup_2.
  - rewrite Hkeys, <- list_fmap_compose.
    rewrite (list_fmap_ext _ id (PyDict.keys plain)); [by rewrite list_fmap_id|].
    intros i k Hi. apply Hback. by eapply list_elem_of_lookup_2.
  - rewrite Hkeys. intros k k' Hk Hk' _.
    apply list_elem_of_fmap in Hk as (k0 & -> & Hk0).
    apply list_elem_of_fmap in Hk' as (k1 & -> & Hk1).
    rewrite (Hback _ Hk0). intros Heq.
    pose proof (contains_prefixed k1) as Hc. rewrite <- Heq in Hc.
    eapply Forall_forall in Hfree; [|exact Hk0]. congruence.
Qed.

(** X10.  A checkpoint saved without the wrapper passes unchanged: when no
    key holds the prefix text the pass returns the dictionary it was given,
    entries and order. *)
Theorem plain_checkpoint_unchanged state_dict :
  NoDup (PyDict.keys state_dict) ->
  Forall (fun k => str_contains "module." k = false) (PyDict.keys state_dict) ->
  strip_module_prefix state_dict = Ok state_dict.
Proof.
  intros Hnd Hfree. unfold strip_module_prefix.
  pose proof (rewrite_keys_fixed state_dict [] ltac:(by rewrite app_nil_r) Hfree) as H.
  by rewrite app_nil_r in H.
Qed.

End KeyRewriteExtras.

(** X11.  The rewrite of a key that starts with the prefix is the rewrite of
    the rest of the key, the rewrite of a key is never longer than the key,
    and it is shorter exactly when the key holds the prefix text somewhere. *)
Theorem new_key_strips_and_shortens (key : string) :
  new_key (String.append "module." key) = new_key key
  /\ String.length (new_key key) <= String.length key
  /\ (String.length (new_key key) < String.length key
      <-> str_contains "module." key = true).
Proof.
  split; [apply new_key_prefixed|].
  destruct (replace_scan_length "module." "" (String.length key)
              ltac:(simpl; lia) key ltac:(lia)) as [Hle Hlt].
  split; [exact Hle|]. split; [|exact Hlt].
  intros Hshort. destruct (str_contains "module." key) eqn:Hc; [done|].
  rewrite (new_key_absent key Hc) in Hshort. lia.
Qed.

(** * More about the driver *)

Section DriverMore.
Context {ops : ImageOps} {fw : Framework}.
Implicit Types (cfg : Cfg) (split : list (img * Z)) (gen : list nat)
  (s : state) (m : module).

#[local] Existing Instances M_ret M_bind.

Lemma loaded_app (l1 l2 : list event) : loaded (l1 ++ l2) = loaded l1 ++ loaded l2.
Proof. apply omap_app. Qed.

Lemma logged_angles_app (l1 l2 : list event) :
  logged_angles (l1 ++ l2) = logged_angles l1 ++ logged_angles l2.
Proof. apply omap_app. Qed.

Lemma quiet_trace (tr : list event) :
  view is_loop_event tr = [] -> loaded tr = [] /\ logged_angles tr = [].
Proof.
  induction tr as [|ev tr IH]; [done|].
  unfold view in *. cbn [List.filter].
  destruct (is_loop_event ev) eqn:Hev; [done|].
  intros H. destruct (IH H) as [IH1 IH2].
  unfold loaded, logged_angles in *. cbn [omap list_omap].
  rewrite IH1, IH2.
  by destruct ev as [ | lvl [] | | | | ].
Qed.

(** Every turn calls the loader once, uncapped, whatever the reset attempt
    did; it logs its error line exactly when it completes. *)
Lemma sweep_step_counts cfg split gen (a : Z) s :
  loaded (trace (sweep_step cfg split gen a s).2) = loaded (trace s) ++ [(a, None)]
  /\ logged_angles (trace (sweep_step cfg split gen a s).2)
     = logged_angles (trace s)
       ++ (if (sweep_step cfg split gen a s).1 is Ok _ then [a] else []).
Proof.
  unfold sweep_step. generalize (load_cifar_r split gen a None) as ld. intros ld.
  unfold call_reset, call_accuracy, logger_info, logger_warning,
    mbind, M_bind, bind, mret, M_ret, ret, lift, raise, emit,
    get_model, set_model, try_except.
  destruct s as [tr mo]. cbn [trace model].
  destruct (EVOLVE (MODEL cfg)); cbn [negb];
    destruct mo as [m|]; cbn [trace model];
    try (destruct (reset m) as [m1 [[]|e]]; cbn [trace model]);
    destruct ld as [[x y]|e']; cbn [trace model fst snd];
    try (match goal with
         | |- context [accuracy ?a ?b ?c ?d] =>
             destruct (accuracy a b c d) as [[acc m']|e'']
         end; cbn [trace model fst snd]);
    rewrite ?loaded_app, ?logged_angles_app; cbn;
    rewrite ?app_nil_r, <- ?app_assoc; done.
Qed.

Lemma sweep_counts cfg split gen (angles : list Z) :
  forall s,
    exists j k,
      loaded (trace (sweep cfg split gen angles s).2)
      = loaded (trace s) ++ ((fun a => (a, None)) <$> take k angles)
      /\ logged_angles (trace (sweep cfg split gen angles s).2)
         = logged_angles (trace s) ++ take j angles
      /\ ((sweep cfg split gen angles s).1 = Ok tt ->
          j = length angles /\ k = length angles)
      /\ ((sweep cfg split gen angles s).1 <> Ok tt ->
          j < length angles /\ k = S j).
Proof.
  induction angles as [|a angles IH]; intros s.
  - exists 0, 0. simpl. by rewrite !app_nil_r.
  - rewrite sweep_cons.
    destruct (sweep_step_counts cfg split gen a s) as [Hl Hg].
    destruct (sweep_step cfg split gen a s) as [[[]|e] s1]; cbn [fst snd] in *.
    + destruct (IH s1) as (j & k & Hl' & Hg' & Hok & Hraise).
      exists (S j), (S k). rewrite Hl', Hg', Hl, Hg, <- !app_assoc. simpl.
      split_and!; try done.
      * intros H. destruct (Hok H). lia.
      * intros H. destruct (Hraise H). lia.
    + exists 0, 1. rewrite Hl, Hg. simpl. rewrite ?take_0, ?app_nil_r.
      split_and!; try done. intros _. lia.
Qed.

End DriverMore.

Section DriverExtras.
Context {ops : ImageOps} {fw : Framework}.
Implicit Types (cfg : Cfg) (split : list (img * Z)) (gen : list nat)
  (s : state) (m : module).

#[local] Existing Instances M_ret M_bind.

Lemma getitem_absent {V : Type} (key : string) (d : PyDict.t V) :
  key ∉ PyDict.keys d -> PyDict.getitem key d = Raise (KeyError key).
Proof.
  induction d as [|[k v] d IH]; simpl; [done|].
  intros [Hne Hd]%not_elem_of_cons.
  destruct (String.eqb_spec k key) as [->|_]; [done|]. by apply IH.
Qed.

(** X12.  In every run, whatever fails in it, the loader is only ever called
    uncapped and on the angles 0, 10, ..., 180 in that order without gaps,
    and the error lines logged are for a prefix of the same angles.  A run
    that ends normally has loaded and logged all 19; a run that raises has
    logged fewer than 19, and has loaded exactly one angle more than it
    logged unless it failed before the sweep began. *)
Theorem loads_follow_the_sweep cfg split gen :
  exists j k,
    loaded (trace (evaluate cfg split gen initial).2)
    = (fun a => (a, None)) <$> take k (range 0 181 10)
    /\ logged_angles (trace (evaluate cfg split gen initial).2)
       = take j (range 0 181 10)
    /\ ((evaluate cfg split gen initial).1 = Ok tt -> j = 19 /\ k = 19)
    /\ ((evaluate cfg split gen initial).1 <> Ok tt ->
        j < 19 /\ (k = S j \/ (k = 0 /\ j = 0))).
Proof.
  rewrite evaluate_steps.
  destruct (bootstrap initial) as [[base|e] s0] eqn:Hb.
  - destruct (select cfg base s0) as [[[]|e] s1] eqn:Hs.
    + destruct (quiet_trace (trace s1) (prelude_quiet _ _ _ _ _ Hb Hs)) as [Hl Hg].
      destruct (sweep_counts cfg split gen (range 0 181 10) s1)
        as (j & k & Hl' & Hg' & Hok & Hraise).
      rewrite Hl, Hg in *. change (length (range 0 181 10)) with 19 in *.
      exists j, k. split_and!; try done.
      intros H. destruct (Hraise H). split; [done|by left].
    + destruct (quiet_trace (trace s1) (prelude_quiet _ _ _ _ _ Hb Hs)) as [Hl Hg].
      exists 0, 0. cbn [fst snd]. rewrite Hl, Hg. split_and!; try done.
      intros _. split; [lia|by right].
  - apply bootstrap_state in Hb. subst s0. exists 0, 0. cbn.
    split_and!; try done. intros _. split; [lia|by right].
Qed.

(** X13.  A checkpoint that cannot be used is fatal: when the file does not
    load, when it has no entry [net], or when the architecture rejects the
    rewritten dictionary, [evaluate] raises that very error after its one
    printed line, with no model selected and nothing evaluated. *)
Theorem unusable_checkpoint_is_fatal cfg split gen :
  let failed (e : exn) :=
    evaluate cfg split gen initial
    = (Raise e, {| trace := [EPrint "==> Loading from checkpoint.."];
                   model := None |}) in
  (forall e, torch_load "./lenet5-mnist.pth" = Raise e -> failed e)
  /\ (forall checkpoint,
        torch_load "./lenet5-mnist.pth" = Ok checkpoint ->
        "net"%string ∉ PyDict.keys checkpoint ->
        failed (KeyError "net"))
  /\ (forall checkpoint state_dict once e,
        torch_load "./lenet5-mnist.pth" = Ok checkpoint ->
        PyDict.getitem "net" checkpoint = Ok state_dict ->
        strip_module_prefix state_dict = Ok once ->
        load_state_dict LeNet5 once = Raise e ->
        failed e).
Proof.
  intros failed. unfold failed. split_and!.
  - intros e He. rewrite evaluate_steps. unfold bootstrap, mbind, M_bind, bind, lift, emit.
    cbn [trace model initial]. by rewrite He.
  - intros ckpt Hload Hnet. rewrite evaluate_steps.
    unfold bootstrap, mbind, M_bind, bind, lift, emit.
    cbn [trace model initial]. by rewrite Hload, (getitem_absent _ _ Hnet).
  - intros ckpt sd once e Hload Hnet Hstrip Hreject. rewrite evaluate_steps.
    unfold bootstrap, mbind, M_bind, bind, lift, emit.
    cbn [trace model initial]. by rewrite Hload, Hnet, Hstrip, Hreject.
Qed.

Ltac run_select :=
  unfold select, setup_source, setup_norm, setup_tent, logger_info,
    mbind, M_bind, bind, mret, M_ret, ret, lift, emit, set_model;
  cbn [trace model].

(** X14.  When the selector returns, the local [model] is bound by the one
    branch the mode names: in source mode to the base model put in
    evaluation mode, in norm mode to the wrapper [norm.Norm] made of the base
    model, and in tent mode to the wrapper [tent.Tent] made of the configured
    base model, the optimizer [setup_optimizer] built for its collected
    parameters, the configured step count and the episodic flag. *)
Theorem select_binds_the_named_wrapper cfg (base : module) s s' :
  select cfg base s = (Ok tt, s') ->
  (ADAPTATION (MODEL cfg) = "source"%string -> model s' = Some (module_eval base))
  /\ (ADAPTATION (MODEL cfg) = "norm"%string ->
      exists w, norm_Norm base = Ok w /\ model s' = Some w)
  /\ (ADAPTATION (MODEL cfg) = "tent"%string ->
      exists opt w,
        setup_optimizer cfg (tent_collect_params (tent_configure_model base)) = Ok opt
        /\ tent_Tent (tent_configure_model base) opt (STEPS (OPTIM cfg))
             (EPISODIC (MODEL cfg)) = Ok w
        /\ model s' = Some w).
Proof.
  intros Hsel. split_and!; intros Hmode; revert Hsel; run_select;
    rewrite Hmode; cbn [String.eqb Ascii.eqb Bool.eqb]; cbn [trace model].
  - by intros [= <-].
  - destruct (norm_Norm base) as [w|e]; cbn [trace model]; [|by intros [=]].
    intros [= <-]. exists w. by split.
  - destruct (setup_optimizer cfg _) as [opt|e]; cbn [trace model]; [|by intros [=]].
    destruct (tent_Tent _ opt _ _) as [w|e] eqn:Hw; cbn [trace model];
      [|by intros [=]].
    intros [= <-]. exists opt, w. by split_and!.
Qed.

(** A selection that raises binds nothing. *)
Lemma select_raise_keeps_model cfg (base : module) s e s' :
  select cfg base s = (Raise e, s') -> model s' = model s.
Proof.
  run_select.
  destruct (String.eqb_spec (ADAPTATION (MODEL cfg)) "source") as [H1|H1];
    destruct (String.eqb_spec (ADAPTATION (MODEL cfg)) "norm") as [H2|H2];
    destruct (String.eqb_spec (ADAPTATION (MODEL cfg)) "tent") as [H3|H3];
    try congruence;
    cbn [trace model];
    repeat match goal with
      | |- context [norm_Norm ?x] => destruct (norm_Norm x); cbn [trace model]
      | |- context [setup_optimizer ?c ?x] =>
          destruct (setup_optimizer c x); cbn [trace model]
      | |- context [tent_Tent ?a ?b ?c ?d] =>
          destruct (tent_Tent a b c d); cbn [trace model]
      end;
    intros [= _ <-]; done.
Qed.

(** X15.  A failure while the adaptation wrapper is set up is fatal and
    comes before the sweep: when the selection raises, [evaluate] raises that
    very error, [model] is still unbound, and no reset, load or accuracy call
    has been made and no error line logged. *)
Theorem failed_selection_is_fatal cfg split gen (base : module) s0 e s1 :
  bootstrap initial = (Ok base, s0) ->
  select cfg base s0 = (Raise e, s1) ->
  evaluate cfg split gen initial = (Raise e, s1)
  /\ model s1 = None
  /\ view is_loop_event (trace s1) = []
  /\ loaded (trace s1) = []
  /\ logged_angles (trace s1) = [].
Proof.
  intros Hb Hs. split; [by rewrite evaluate_steps, Hb, Hs|].
  split.
  - rewrite (select_raise_keeps_model _ _ _ _ _ Hs).
    apply bootstrap_state in Hb. by subst s0.
  - pose proof (prelude_quiet _ _ _ _ _ Hb Hs) as Hq.
    split; [exact Hq|]. by apply quiet_trace.
Qed.

End DriverExtras.

Section ProtocolExtras.
Context {ops : ImageOps} {fw : Framework}.
Implicit Types (cfg : Cfg) (split : list (img * Z)) (gen : list nat)
  (s : state) (m : module).

#[local] Existing Instances M_ret M_bind.

Lemma sweep_step_reads (cfg cfg' : Cfg) split gen (a : Z) s :
  EVOLVE (MODEL cfg) = EVOLVE (MODEL cfg') ->
  BATCH_SIZE (TEST cfg) = BATCH_SIZE (TEST cfg') ->
  sweep_step cfg split gen a s = sweep_step cfg' split gen a s.
Proof. intros He Hb. unfold sweep_step. by rewrite He, Hb. Qed.

Lemma sweep_reads (cfg cfg' : Cfg) split gen (angles : list Z) :
  EVOLVE (MODEL cfg) = EVOLVE (MODEL cfg') ->
  BATCH_SIZE (TEST cfg) = BATCH_SIZE (TEST cfg') ->
  forall s, sweep cfg split gen angles s = sweep cfg' split gen angles s.
Proof.
  intros He Hb. induction angles as [|a angles IH]; intros s; [done|].
  rewrite !sweep_cons, (sweep_step_reads cfg cfg') by done.
  destruct (sweep_step cfg' split gen a s) as [[[]|e] s1]; [apply IH|done].
Qed.

(** X16.  The optimizer settings are read in tent mode only: two
    configurations with the same [MODEL] and [TEST] parts and an adaptation
    mode other than tent give the same run, whatever their [OPTIM] parts
    hold, an unimplemented method included. *)
Theorem optimizer_settings_matter_only_for_tent (cfg cfg' : Cfg) split gen s :
  MODEL cfg = MODEL cfg' ->
  TEST cfg = TEST cfg' ->
  ADAPTATION (MODEL cfg) <> "tent"%string ->
  evaluate cfg split gen s = evaluate cfg' split gen s.
Proof.
  intros Hm Ht Hmode. rewrite !evaluate_steps.
  destruct (bootstrap s) as [[base|e] s0]; [|done].
  assert (select cfg base s0 = select cfg' base s0) as ->.
  { unfold select. rewrite <- Hm.
    apply String.eqb_neq in Hmode. by rewrite Hmode. }
  destruct (select cfg' base s0) as [[[]|e] s1]; [|done].
  apply sweep_reads; by rewrite ?Hm, ?Ht.
Qed.

(** X17.  When every reset returns and restores one and the same snapshot,
    a run with [EVOLVE] unset that reaches the loop measures every angle on
    that snapshot: the accuracy of an angle, and so its logged error, is what
    the snapshot gives on that angle's data, whatever was adapted on the
    angles before it. *)
Theorem snapshot_reset_measures_each_angle_alike cfg split gen base s0 s1 m0
    (snapshot : module) :
  bootstrap initial = (Ok base, s0) ->
  select cfg base s0 = (Ok tt, s1) ->
  model s1 = Some m0 ->
  split <> [] ->
  accuracy_returns ->
  EVOLVE (MODEL cfg) = false ->
  (forall m, reset m = (snapshot, Ok tt)) ->
  exists s' ts,
    evaluate cfg split gen initial = (Ok tt, s')
    /\ t_angle <$> ts = [0; 10; 20; 30; 40; 50; 60; 70; 80; 90; 100; 110; 120;
                         130; 140; 150; 160; 170; 180]%Z
    /\ Forall (fun t =>
                 accuracy snapshot
                   (fst <$> examples (t_angle t) split)
                   (snd <$> examples (t_angle t) split)
                   (BATCH_SIZE (TEST cfg))
                 = Ok (t_acc t, t_after t)) ts
    /\ logged_angles (trace s') = t_angle <$> ts
    /\ view is_evaluation_event (trace s')
       = concat ((fun t =>
                    [ELoad (t_angle t) None;
                     EAccuracy snapshot
                       (fst <$> examples (t_angle t) split)
                       (snd <$> examples (t_angle t) split)
                       (BATCH_SIZE (TEST cfg)) (Ok (t_acc t, t_after t));
                     ELog INFO (ErrorPct (t_angle t) (1 - t_acc t)%float)]) <$> ts).
Proof.
  intros Hb Hs Hm Hne Hacc Hev Hreset.
  destruct (evaluate_normal cfg split gen base s0 s1 m0 Hb Hs Hm Hne Hacc)
    as (ts & Hrun & Hangles & Hok & _).
  assert (Forall (fun t => t_used t = snapshot) ts) as Hused.
  { eapply Forall_impl; [exact Hok|]. intros t (_ & Hu & _).
    rewrite Hev, Hreset in Hu. exact Hu. }
  eexists _, ts. split; [exact Hrun|]. cbn [trace].
  split; [by rewrite Hangles, range_sweep|].
  split.
  { apply Forall_forall. intros t Ht.
    pose proof (proj1 (Forall_forall _ _) Hok t Ht) as (_ & _ & Ha).
    pose proof (proj1 (Forall_forall _ _) Hused t Ht) as Hu.
    by rewrite Hu in Ha. }
  split.
  - rewrite logged_angles_app.
    destruct (quiet_trace (trace s1) (prelude_quiet _ _ _ _ _ Hb Hs)) as [_ ->].
    rewrite app_nil_l. clear. induction ts as [|t ts IH]; [done|].
    rewrite !fmap_cons. cbn [concat]. rewrite logged_angles_app, IH.
    unfold turn_events. rewrite logged_angles_app.
    by destruct (t_reset t) as [[after [[]|e]]|].
  - rewrite view_app.
    rewrite (view_weaken is_evaluation_event is_loop_event (trace s1));
      [|apply evaluation_in_loop | by eapply prelude_quiet].
    rewrite app_nil_l, view_concat. f_equal.
    apply Forall_fmap_ext. eapply Forall_impl; [exact Hused|].
    intros t Hu. rewrite view_evaluation_turn. unfold evaluation_events.
    by rewrite Hu.
Qed.

End ProtocolExtras.

Section ResetExtras.
Context {ops : ImageOps} {fw : Framework}.
Implicit Types (cfg : Cfg) (split : list (img * Z)) (gen : list nat)
  (s : state) (m : module) (tr : list event).

#[local] Existing Instances M_ret M_bind.

Lemma handled_tail (ev : event) tr :
  failed_resets_handled (ev :: tr) -> failed_resets_handled tr.
Proof. destruct ev as [ | | m m' [[]|e] | | | ]; simpl; tauto. Qed.

Lemma handled_app tr1 tr2 :
  failed_resets_handled tr1 -> failed_resets_handled tr2 ->
  failed_resets_handled (tr1 ++ tr2).
Proof.
  intros H1 H2. induction tr1 as [|ev tr1 IH]; [done|].
  pose proof (IH (handled_tail _ _ H1)) as Hrest.
  destruct ev as [ | | m m' [[]|e] | | | ]; simpl in *; try done.
  destruct H1 as [(a & tr' & ->) _]. split; [|done].
  by exists a, (tr' ++ tr2).
Qed.

Lemma handled_at tr :
  failed_resets_handled tr ->
  forall tr1 tr2 m m' e,
    tr = tr1 ++ EReset m m' (Raise e) :: tr2 ->
    exists a tr3,
      tr2 = ECaught e :: ELog WARNING (Text "not resetting model")
              :: ELoad a None :: tr3.
Proof.
  intros H tr1. revert tr H.
  induction tr1 as [|ev tr1 IH]; intros tr H tr2 m m' e ->.
  - simpl in H. by destruct H as [? _].
  - eapply IH; [|reflexivity]. by eapply handled_tail.
Qed.

(** Whatever happens in a turn, a reset call that raised in it is followed
    by the catch, the warning and the load. *)
Lemma sweep_step_handles cfg split gen (a : Z) s :
  exists added,
    trace (sweep_step cfg split gen a s).2 = trace s ++ added
    /\ failed_resets_handled added.
Proof.
  unfold sweep_step. generalize (load_cifar_r split gen a None) as ld. intros ld.
  unfold call_reset, call_accuracy, logger_info, logger_warning,
    mbind, M_bind, bind, mret, M_ret, ret, lift, raise, emit,
    get_model, set_model, try_except.
  destruct s as [tr mo]. cbn [trace model].
  destruct (EVOLVE (MODEL cfg)); cbn [negb];
    destruct mo as [m|]; cbn [trace model];
    try (destruct (reset m) as [m1 [[]|e]]; cbn [trace model]);
    destruct ld as [[x y]|e']; cbn [trace model fst snd];
    try (match goal with
         | |- context [accuracy ?a ?b ?c ?d] =>
             destruct (accuracy a b c d) as [[acc m']|e'']
         end; cbn [trace model fst snd]);
    rewrite <- ?app_assoc; eexists; (split; [reflexivity|]); simpl; eauto.
Qed.

Lemma sweep_handles cfg split gen (angles : list Z) :
  forall s,
    exists added,
      trace (sweep cfg split gen angles s).2 = trace s ++ added
      /\ failed_resets_handled added.
Proof.
  induction angles as [|a angles IH]; intros s.
  - exists []. simpl. by rewrite app_nil_r.
  - rewrite sweep_cons.
    destruct (sweep_step_handles cfg split gen a s) as (add1 & Ht1 & H1).
    destruct (sweep_step cfg split gen a s) as [[[]|e] s1]; cbn [snd] in *.
    + destruct (IH s1) as (add2 & Ht2 & H2). exists (add1 ++ add2).
      rewrite Ht2, Ht1, <- app_assoc. split; [done|]. by apply handled_app.
    + by exists add1.
Qed.

Lemma quiet_handled tr : view is_loop_event tr = [] -> failed_resets_handled tr.
Proof.
  induction tr as [|ev tr IH]; [done|].
  unfold view in *. cbn [List.filter].
  destruct (is_loop_event ev) eqn:Hev; [done|]. intros H.
  destruct ev as [ | lvl [] | | | | ]; simpl; try done; by apply IH.
Qed.

(** X18.  In every run, whatever else fails in it, an error raised by a
    reset call does not end the run: the call is followed at once by the
    catch of that error, the warning, and the call of the loader. *)
Theorem failed_reset_is_followed_by_the_load cfg split gen tr1 tr2 m m' e :
  trace (evaluate cfg split gen initial).2 = tr1 ++ EReset m m' (Raise e) :: tr2 ->
  exists a tr3,
    tr2 = ECaught e :: ELog WARNING (Text "not resetting model")
            :: ELoad a None :: tr3.
Proof.
  apply handled_at. rewrite evaluate_steps.
  destruct (bootstrap initial) as [[base|e0] s0] eqn:Hb.
  - destruct (select cfg base s0) as [[[]|e0] s1] eqn:Hs.
    + destruct (sweep_handles cfg split gen (range 0 181 10) s1) as (added & -> & H).
      apply handled_app; [|done].
      apply quiet_handled. by eapply prelude_quiet.
    + apply quiet_handled. by eapply prelude_quiet.
  - apply bootstrap_state in Hb. by subst s0.
Qed.

End ResetExtras.

(** * More runs on the small framework *)

Ltac in_concrete_list H :=
  apply list_elem_of_In in H; simpl in H;
  repeat match type of H with
    | _ \/ _ => destruct H as [H|H]
    | False => destruct H
    end.

Lemma uncapped_load_is_whole_split_witness :
  @load_cifar_r ZOps (toy_split 3) [] 30 None
  = Ok ((fun e => @rotate ZOps (@normalize ZOps [0.1307%float] [0.3081%float]
                                  (@to_tensor ZOps (fst e))) 30%Z) <$> toy_split 3,
        snd <$> toy_split 3).
Proof.
  apply (@uncapped_load_is_whole_split ZOps (toy_split 3) [] 30%Z). discriminate.
Defined.

Lemma capped_load_is_prefix_of_uncapped_witness :
  exists xf yf,
    @load_cifar_r ZOps (toy_split 250) [] 30 None = Ok (xf, yf)
    /\ @load_cifar_r ZOps (toy_split 250) [] 30 (Some (-1)%Z)
       = Ok (take (Nat.min 100 (length (toy_split 250)) - Z.to_nat (- -1)) xf,
             take (Nat.min 100 (length (toy_split 250)) - Z.to_nat (- -1)) yf)
    /\ length (take (Nat.min 100 (length (toy_split 250)) - Z.to_nat (- -1)) xf)
       = Nat.min 100 (length (toy_split 250)) - Z.to_nat (- -1)
    /\ length (take (Nat.min 100 (length (toy_split 250)) - Z.to_nat (- -1)) yf)
       = Nat.min 100 (length (toy_split 250)) - Z.to_nat (- -1).
Proof.
  apply (@capped_load_is_prefix_of_uncapped ZOps (toy_split 250) [] 30%Z (Some (-1)%Z)).
  discriminate.
Defined.

Lemma smaller_cap_is_prefix_of_larger_witness :
  exists xs2 ys2,
    @load_cifar_r ZOps (toy_split 250) [] 30 (Some 120%Z) = Ok (xs2, ys2)
    /\ @load_cifar_r ZOps (toy_split 250) [] 30 (Some 50%Z)
       = Ok (take (Z.to_nat 50) xs2, take (Z.to_nat 50) ys2).
Proof.
  apply (@smaller_cap_is_prefix_of_larger ZOps (toy_split 250) [] 30%Z 50%Z 120%Z).
  - discriminate.
  - discriminate.
  - discriminate.
Defined.

Lemma angle_only_rotates_witness :
  exists (base : list Z) (labels : list Z),
    forall rotation,
      @load_cifar_r ZOps (toy_split 3) [] rotation (Some 2%Z)
      = Ok ((fun t => @rotate ZOps t rotation) <$> base, labels).
Proof.
  apply (@angle_only_rotates ZOps (toy_split 3) [] (Some 2%Z)). discriminate.
Defined.

Lemma toy_keys_distinct :
  NoDup (PyDict.keys [("module.conv1.weight"%string, 1%Z); ("module.fc.bias"%string, 2%Z)]).
Proof.
  apply NoDup_cons. split; [|apply NoDup_singleton].
  intros H. apply list_elem_of_singleton in H. discriminate.
Defined.

Lemma plain_keys_distinct :
  NoDup (PyDict.keys [("conv1.weight"%string, 1%Z); ("fc.bias"%string, 2%Z)]).
Proof.
  apply NoDup_cons. split; [|apply NoDup_singleton].
  intros H. apply list_elem_of_singleton in H. discriminate.
Defined.

Lemma strip_module_prefix_returns_witness :
  exists once,
    strip_module_prefix [("module.conv1.weight"%string, 1%Z); ("module.fc.bias"%string, 2%Z)]
    = Ok once.
Proof. apply strip_module_prefix_returns, toy_keys_distinct. Defined.

Lemma strip_module_prefix_keeps_shape_witness :
  length [("conv1.weight"%string, 1%Z); ("fc.bias"%string, 2%Z)]
  <= length [("module.conv1.weight"%string, 1%Z); ("module.fc.bias"%string, 2%Z)]
  /\ NoDup (PyDict.keys [("conv1.weight"%string, 1%Z); ("fc.bias"%string, 2%Z)])
  /\ (forall x,
        x ∈ PyDict.keys [("conv1.weight"%string, 1%Z); ("fc.bias"%string, 2%Z)] ->
        exists k,
          k ∈ PyDict.keys [("module.conv1.weight"%string, 1%Z);
                           ("module.fc.bias"%string, 2%Z)]
          /\ x = new_key k)
  /\ (forall w,
        w ∈ (snd <$> [("conv1.weight"%string, 1%Z); ("fc.bias"%string, 2%Z)]) ->
        w ∈ (snd <$> [("module.conv1.weight"%string, 1%Z);
                      ("module.fc.bias"%string, 2%Z)])).
Proof.
  apply (@strip_module_prefix_keeps_shape Z
           [("module.conv1.weight"%string, 1%Z); ("module.fc.bias"%string, 2%Z)]).
  - apply toy_keys_distinct.
  - reflexivity.
Defined.

Lemma strip_module_prefix_renames_in_order_witness :
  strip_module_prefix [("module.conv1.weight"%string, 1%Z); ("fc.bias"%string, 2%Z)]
  = Ok ((fun e => (new_key (fst e), snd e))
          <$> [("module.conv1.weight"%string, 1%Z); ("fc.bias"%string, 2%Z)]).
Proof.
  apply (@strip_module_prefix_renames_in_order Z).
  - apply plain_keys_distinct.
  - intros k k' Hk Hk' Hne.
    in_concrete_list Hk; in_concrete_list Hk'; subst k k';
      solve [ by destruct Hne | vm_compute; discriminate ].
Defined.

Lemma wrapped_checkpoint_unwraps_witness :
  strip_module_prefix
    ((fun e => (String.append "module." (fst e), snd e))
       <$> [("conv1.weight"%string, 1%Z); ("fc.bias"%string, 2%Z)])
  = Ok [("conv1.weight"%string, 1%Z); ("fc.bias"%string, 2%Z)].
Proof.
  apply (@wrapped_checkpoint_unwraps Z).
  - apply plain_keys_distinct.
  - repeat constructor.
Defined.

Lemma plain_checkpoint_unchanged_witness :
  strip_module_prefix [("conv1.weight"%string, 1%Z); ("fc.bias"%string, 2%Z)]
  = Ok [("conv1.weight"%string, 1%Z); ("fc.bias"%string, 2%Z)].
Proof.
  apply (@plain_checkpoint_unchanged Z).
  - apply plain_keys_distinct.
  - repeat constructor.
Defined.

Lemma select_binds_the_named_wrapper_witness :
  exists opt w,
    @setup_optimizer ZOps (ToyFramework true) (toy_cfg "tent" true "SGD")
      (@tent_collect_params ZOps (ToyFramework true)
         (@tent_configure_model ZOps (ToyFramework true) 0%nat))
    = Ok opt
    /\ @tent_Tent ZOps (ToyFramework true)
         (@tent_configure_model ZOps (ToyFramework true) 0%nat) opt
         (STEPS (OPTIM (toy_cfg "tent" true "SGD")))
         (EPISODIC (MODEL (toy_cfg "tent" true "SGD")))
       = Ok w
    /\ model (@select ZOps (ToyFramework true) (toy_cfg "tent" true "SGD") 0%nat
                initial).2
       = Some w.
Proof.
  apply (proj2 (proj2 (@select_binds_the_named_wrapper ZOps (ToyFramework true)
                         (toy_cfg "tent" true "SGD") 0%nat initial
                         (@select ZOps (ToyFramework true) (toy_cfg "tent" true "SGD")
                            0%nat initial).2
                         eq_refl))).
  reflexivity.
Defined.

Lemma failed_selection_is_fatal_witness :
  @evaluate ZOps (ToyFramework true) (toy_cfg "tent" true "RMSprop") (toy_split 2) []
    initial
  = (Raise NotImplementedError,
     @Build_state ZOps (ToyFramework true)
       [EPrint "==> Loading from checkpoint..";
        ELog INFO (Text "test-time adaptation: TENT")]
       None)
  /\ model (@Build_state ZOps (ToyFramework true)
              [EPrint "==> Loading from checkpoint..";
               ELog INFO (Text "test-time adaptation: TENT")]
              None) = None
  /\ view is_loop_event
       (trace (@Build_state ZOps (ToyFramework true)
                 [EPrint "==> Loading from checkpoint..";
                  ELog INFO (Text "test-time adaptation: TENT")]
                 None)) = []
  /\ loaded
       (trace (@Build_state ZOps (ToyFramework true)
                 [EPrint "==> Loading from checkpoint..";
                  ELog INFO (Text "test-time adaptation: TENT")]
                 None)) = []
  /\ logged_angles
       (trace (@Build_state ZOps (ToyFramework true)
                 [EPrint "==> Loading from checkpoint..";
                  ELog INFO (Text "test-time adaptation: TENT")]
                 None)) = [].
Proof.
  eapply (@failed_selection_is_fatal ZOps (ToyFramework true)
            (toy_cfg "tent" true "RMSprop") (toy_split 2) []).
  - reflexivity.
  - reflexivity.
Defined.

Lemma optimizer_settings_matter_only_for_tent_witness :
  @evaluate ZOps (ToyFramework true) (toy_cfg "norm" false "Adam") (toy_split 2) []
    initial
  = @evaluate ZOps (ToyFramework true) (toy_cfg "norm" false "RMSprop") (toy_split 2) []
      initial.
Proof.
  apply (@optimizer_settings_matter_only_for_tent ZOps (ToyFramework true)
           (toy_cfg "norm" false "Adam") (toy_cfg "norm" false "RMSprop")).
  - reflexivity.
  - reflexivity.
  - discriminate.
Defined.

Lemma snapshot_reset_measures_each_angle_alike_witness :
  exists s' ts,
    @evaluate ZOps (ToyFramework true) (toy_cfg "tent" false "Adam") (toy_split 2) []
      initial = (Ok tt, s')
    /\ t_angle <$> ts = [0; 10; 20; 30; 40; 50; 60; 70; 80; 90; 100; 110; 120;
                         130; 140; 150; 160; 170; 180]%Z
    /\ Forall (fun t =>
                 @accuracy ZOps (ToyFramework true) 0%nat
                   (fst <$> @examples ZOps (t_angle t) (toy_split 2))
                   (snd <$> @examples ZOps (t_angle t) (toy_split 2))
                   (BATCH_SIZE (TEST (toy_cfg "tent" false "Adam")))
                 = Ok (t_acc t, t_after t)) ts
    /\ logged_angles (trace s') = t_angle <$> ts
    /\ view is_evaluation_event (trace s')
       = concat ((fun t =>
                    [ELoad (t_angle t) None;
                     @EAccuracy ZOps (ToyFramework true) 0%nat
                       (fst <$> @examples ZOps (t_angle t) (toy_split 2))
                       (snd <$> @examples ZOps (t_angle t) (toy_split 2))
                       (BATCH_SIZE (TEST (toy_cfg "tent" false "Adam")))
                       (Ok (t_acc t, t_after t));
                     ELog INFO (ErrorPct (t_angle t) (1 - t_acc t)%float)]) <$> ts).
Proof.
  eapply (@snapshot_reset_measures_each_angle_alike ZOps (ToyFramework true)
            (toy_cfg "tent" false "Adam") (toy_split 2) []).
  - reflexivity.
  - reflexivity.
  - reflexivity.
  - discriminate.
  - apply toy_accuracy_returns.
  - reflexivity.
  - intros m. reflexivity.
Defined.

Lemma failed_reset_is_followed_by_the_load_witness :
  exists a tr3,
    drop 4 (trace (@evaluate ZOps (ToyFramework false) (toy_cfg "source" false "Adam")
                     (toy_split 2) [] initial).2)
    = ECaught (AttributeError "reset") :: ELog WARNING (Text "not resetting model")
        :: ELoad a None :: tr3.
Proof.
  apply (@failed_reset_is_followed_by_the_load ZOps (ToyFramework false)
           (toy_cfg "source" false "Adam") (toy_split 2) []
           (take 3 (trace (@evaluate ZOps (ToyFramework false)
                             (toy_cfg "source" false "Adam") (toy_split 2) []
                             initial).2))
           (drop 4 (trace (@evaluate ZOps (ToyFramework false)
                             (toy_cfg "source" false "Adam") (toy_split 2) []
                             initial).2))
           0%nat 0%nat (AttributeError "reset")).
  reflexivity.
Defined.

(** A run that is cut short: two angles are measured, the third is loaded,
    and the accuracy call on it ends the run. *)
Example limited_run_stops_at_third_angle :
  (fun r => (r.1, loaded (trace r.2), logged_angles (trace r.2), model r.2))
    (@evaluate ZOps (ToyFrameworkLimited 2) (toy_cfg "source" true "Adam")
       (toy_split 2) [] initial)
  = (Raise (RuntimeError "CUDA out of memory"),
     [(0, None); (10, None); (20, None)]%Z, [0; 10]%Z,
     @Some (@module ZOps (ToyFrameworkLimited 2)) 2%nat).
Proof. reflexivity. Qed.
